(** * Adafruit_LittleFS: the thread-safe facade over the littlefs engine

    A shallow embedding of
    [libraries/Adafruit_LittleFS/src/Adafruit_LittleFS.cpp]: the mount
    controller ([begin], [end], [format]), the directory path builder
    ([mkdir]), the removal operations and the file-handle factory.

    Every member function is a computation over the facade object that
    returns a value, the updated object and the list of actions it
    performed, in program order: calls on the mutex, calls into the
    engine (with the code the engine reported) and stores to [_mounted].
    A member function is run as called by a task that does not hold the
    mutex.  [format] is the one member function that takes the mutex
    while it holds it: there its task waits for ever, which its run
    records as a call that has no value. *)

From Stdlib Require Import ZArith String Ascii List Bool Arith Lia Sorted.
From Equations Require Import Equations.
Import ListNotations.

Local Open Scope Z_scope.
Local Open Scope string_scope.

(** ** Engine result codes *)

(** Modelled from the spec: the engine's result codes ([enum lfs_error] of
    lfs.h, which is not among the sources), one per error kind of the
    error taxonomy, with the numeric values littlefs gives them. *)
Module LfsErr.
Definition LFS_ERR_OK : Z := 0.
Definition LFS_ERR_IO : Z := -5.
Definition LFS_ERR_CORRUPT : Z := -52.
Definition LFS_ERR_NOENT : Z := -2.
Definition LFS_ERR_EXIST : Z := -17.
Definition LFS_ERR_NOTDIR : Z := -20.
Definition LFS_ERR_ISDIR : Z := -21.
Definition LFS_ERR_NOTEMPTY : Z := -39.
Definition LFS_ERR_BADF : Z := -9.
Definition LFS_ERR_INVAL : Z := -22.
Definition LFS_ERR_NOSPC : Z := -28.
Definition LFS_ERR_NOMEM : Z := -12.
End LfsErr.
Export LfsErr.

(** ** The storage engine, as the facade sees it *)

(** Modelled from the spec: the storage engine (lfs.h / lfs.c, not among
    the sources) is taken as an interface.  Each primitive maps the
    engine's runtime context to the integer result code of the call and
    the context after it.  A configuration is passed as the C code passes
    it: a pointer that may be null ([None]). *)
Class Engine : Type := {
  lfs_config : Type;
  lfs_t : Type;
  lfs_clear : lfs_t;
  lfs_mount : lfs_t -> option lfs_config -> Z * lfs_t;
  lfs_unmount : lfs_t -> Z * lfs_t;
  lfs_format : lfs_t -> option lfs_config -> Z * lfs_t;
  lfs_stat : lfs_t -> string -> Z * lfs_t;
  lfs_mkdir : lfs_t -> string -> Z * lfs_t;
  lfs_remove : lfs_t -> string -> Z * lfs_t
}.

(** ** C strings *)

(** A path is the sequence of characters before the terminating NUL. *)

Definition is_slash (c : ascii) : bool := Ascii.eqb c "/"%char.

(** [p + n] for a [char const *p]: the string with its first [n]
    characters dropped. *)
Fixpoint advance (n : nat) (s : string) : string :=
  match n, s with
  | O, _ => s
  | S n', String _ s' => advance n' s'
  | S _, EmptyString => EmptyString
  end.

(** [strchr(p, '/') - p], or [None] when [strchr] returns NULL. *)
Fixpoint strchr_slash (s : string) : option nat :=
  match s with
  | EmptyString => None
  | String c s' =>
      if is_slash c then Some O else option_map S (strchr_slash s')
  end.

(** [strchr(filepath + slash, '/') - filepath]: pointers into [filepath]
    are offsets from its start. *)
Definition strchr (filepath : string) (slash : nat) : option nat :=
  option_map (Nat.add slash) (strchr_slash (advance slash filepath)).

Lemma advance_length (n : nat) (s : string) :
  String.length (advance n s) = (String.length s - n)%nat.
Proof.
  revert s; induction n as [|n IH]; intros [|c s]; simpl; auto.
Qed.

Lemma strchr_slash_lt (s : string) (k : nat) :
  strchr_slash s = Some k -> (k < String.length s)%nat.
Proof.
  revert k; induction s as [|c s IH]; simpl; intros k H; [discriminate|].
  destruct (is_slash c).
  - inversion H; lia.
  - destruct (strchr_slash s) as [j|]; simpl in H; [|discriminate].
    inversion H; subst. specialize (IH j eq_refl). lia.
Qed.

Lemma strchr_bounds (filepath : string) (slash k : nat) :
  strchr filepath slash = Some k ->
  (slash <= k /\ k < String.length filepath)%nat.
Proof.
  unfold strchr. destruct (strchr_slash (advance slash filepath)) as [j|] eqn:Hj;
    simpl; intros H; [|discriminate].
  inversion H; subst. apply strchr_slash_lt in Hj.
  rewrite advance_length in Hj. lia.
Qed.

(** The buffer [parent] after [memcpy(parent, filepath, n)] into a zeroed
    array of [n + 1] characters. *)
Definition memcpy_prefix (filepath : string) (n : nat) : string :=
  substring 0 n filepath.

(** ** The facade *)

(** Modelled from the spec: the file handle ([File], whose constructor is
    in Adafruit_LittleFS_File.cpp, not among the sources): a path, the
    open mode flags, bound to the facade that built it; building one does
    not perform the engine-level open. *)
Record File : Type := mkFile {
  file_path : string;
  file_mode : Z
}.

Section Facade.

Context {E : Engine}.

(** The data members of [class Adafruit_LittleFS] ([_mutex] is observed
    through the calls made on it). *)
Record Adafruit_LittleFS : Type := mkFS {
  _lfs : lfs_t;
  _lfs_cfg : option lfs_config;
  _mounted : bool
}.

(** Calls into the engine, with their arguments. *)
Inductive lfs_call : Type :=
| c_mount (cfg : option lfs_config)
| c_unmount
| c_format (cfg : option lfs_config)
| c_stat (path : string)
| c_mkdir (path : string)
| c_remove (path : string).

(** The actions of a member function. *)
Inductive event : Type :=
| Take                                   (* xSemaphoreTake(_mutex, portMAX_DELAY) *)
| Give                                   (* xSemaphoreGive(_mutex) *)
| Lfs (c : lfs_call) (rc : Z)            (* an engine call and its result *)
| StoreMounted (b : bool).               (* _mounted = b *)

(** The outcome of running a member function. *)
Record run (A : Type) : Type := mkRun {
  value : A;
  post : Adafruit_LittleFS;
  events : list event
}.
Arguments mkRun {A} _ _ _.
Arguments value {A} _.
Arguments post {A} _.
Arguments events {A} _.

Definition M (A : Type) : Type := Adafruit_LittleFS -> run A.

Definition pure {A : Type} (a : A) : M A := fun s => mkRun a s [].

Definition bind {A B : Type} (m : M A) (k : A -> M B) : M B :=
  fun s =>
    match m s with
    | mkRun a s1 t1 =>
        match k a s1 with
        | mkRun b s2 t2 => mkRun b s2 (t1 ++ t2)
        end
    end.

Notation "x <- m ;; k" := (bind m (fun x => k))
  (at level 61, m at next level, right associativity).
Notation "m ;; k" := (bind m (fun _ => k))
  (at level 61, right associativity).

(** *** Primitive actions *)

Definition xSemaphoreTake : M unit := fun s => mkRun tt s [Take].
Definition xSemaphoreGive : M unit := fun s => mkRun tt s [Give].

Definition load_mounted : M bool := fun s => mkRun (_mounted s) s [].
Definition load_cfg : M (option lfs_config) := fun s => mkRun (_lfs_cfg s) s [].

Definition store_mounted (b : bool) : M unit :=
  fun s => mkRun tt (mkFS (_lfs s) (_lfs_cfg s) b) [StoreMounted b].
Definition store_cfg (cfg : option lfs_config) : M unit :=
  fun s => mkRun tt (mkFS (_lfs s) cfg (_mounted s)) [].

(** An engine call on [&_lfs]: the context is updated in place and the
    result code is returned. *)
Definition engine (c : lfs_call) (f : lfs_t -> Z * lfs_t) : M Z :=
  fun s =>
    match f (_lfs s) with
    | (rc, l) => mkRun rc (mkFS l (_lfs_cfg s) (_mounted s)) [Lfs c rc]
    end.

Definition call_mount : M Z :=
  cfg <- load_cfg ;; engine (c_mount cfg) (fun l => lfs_mount l cfg).
Definition call_unmount : M Z := engine c_unmount lfs_unmount.
Definition call_format : M Z :=
  cfg <- load_cfg ;; engine (c_format cfg) (fun l => lfs_format l cfg).
Definition call_stat (path : string) : M Z :=
  engine (c_stat path) (fun l => lfs_stat l path).
Definition call_mkdir (path : string) : M Z :=
  engine (c_mkdir path) (fun l => lfs_mkdir l path).
Definition call_remove (path : string) : M Z :=
  engine (c_remove path) (fun l => lfs_remove l path).

(** *** Code that may take the mutex it holds *)

(** Modelled from the spec: [_mutex] is an exclusive lock whose
    acquisition blocks with no timeout (a FreeRTOS mutex made by
    [xSemaphoreCreateMutexStatic], taken with [portMAX_DELAY]; FreeRTOS is
    not among the sources), so a task that takes the mutex it holds never
    comes back from that call.

    A computation of [W A] is run from a flag telling whether the calling
    task holds the mutex.  Its run has the value [Some (a, held)] when it
    returns [a], the task then holding the mutex or not, and no value
    when the task waits for ever; in that case [post] and [events] are the
    facade and the actions up to and including the call that never
    returns. *)
Definition W (A : Type) : Type :=
  bool -> Adafruit_LittleFS -> run (option (A * bool)).

Definition w_pure {A : Type} (a : A) : W A :=
  fun held s => mkRun (Some (a, held)) s [].

Definition w_bind {A B : Type} (m : W A) (k : A -> W B) : W B :=
  fun held s =>
    match m held s with
    | mkRun (Some (a, held1)) s1 t1 =>
        match k a held1 s1 with
        | mkRun b s2 t2 => mkRun b s2 (t1 ++ t2)
        end
    | mkRun None s1 t1 => mkRun None s1 t1
    end.

Notation "x <~ m ;; k" := (w_bind m (fun x => k))
  (at level 61, m at next level, right associativity).
Notation "m ;;~ k" := (w_bind m (fun _ => k))
  (at level 61, right associativity).

(** [xSemaphoreTake(_mutex, portMAX_DELAY)] and [xSemaphoreGive(_mutex)]
    by a task that may hold the mutex. *)
Definition w_take : W unit :=
  fun held s =>
    if held then mkRun None s [Take] else mkRun (Some (tt, true)) s [Take].
Definition w_give : W unit :=
  fun held s => mkRun (Some (tt, false)) s [Give].

(** An action that makes no call on the mutex. *)
Definition w_lift {A : Type} (m : M A) : W A :=
  fun held s =>
    match m s with
    | mkRun a s1 t1 => mkRun (Some (a, held)) s1 t1
    end.

(** The call of a member function by a task that does not hold the
    mutex: its value is [None] when the call never returns. *)
Definition enter {A : Type} (code : W A) : M (option A) :=
  fun s =>
    match code false s with
    | mkRun v s1 t1 => mkRun (option_map fst v) s1 t1
    end.

(** Modelled from the spec: the macro [VERIFY_LFS(status, ret)] of
    Adafruit_LittleFS.h (not among the sources): a step that reports
    anything but success aborts the remaining steps, the enclosing
    function returning [ret] there and then. *)
Definition VERIFY_LFS {A : Type} (status : W Z) (r : A) (rest : W A) : W A :=
  err <~ status ;;
  if Z.eqb err 0 then rest else w_pure r.

(** *** Constructor *)

(** [Adafruit_LittleFS(struct lfs_config* cfg)]. *)
Definition new_fs (cfg : option lfs_config) : Adafruit_LittleFS :=
  mkFS lfs_clear cfg false.

(** *** Mount controller *)

(** [bool Adafruit_LittleFS::begin (struct lfs_config * cfg)] *)
Definition begin (cfg : option lfs_config) : M bool :=
  m <- load_mounted ;;
  if m then pure true
  else
    (match cfg with Some _ => store_cfg cfg | None => pure tt end) ;;
    stored <- load_cfg ;;
    match stored with
    | None => pure false
    | Some _ =>
        xSemaphoreTake ;;
        err <- call_mount ;;
        xSemaphoreGive ;;
        store_mounted (Z.eqb err LFS_ERR_OK) ;;
        load_mounted
    end.

(** [void Adafruit_LittleFS::end(void)] *)
Definition end_ : M unit :=
  m <- load_mounted ;;
  if negb m then pure tt
  else
    store_mounted false ;;
    xSemaphoreTake ;;
    err <- call_unmount ;;
    xSemaphoreGive ;;
    pure tt.

(** [bool Adafruit_LittleFS::xWrap_format (void)], which takes the
    mutex whether or not its caller holds it.  [_mounted] is read anew
    before the remount. *)
Definition xWrap_format : W bool :=
  w_take ;;~
  m <~ w_lift load_mounted ;;
  VERIFY_LFS (if m then w_lift call_unmount else w_pure 0) false (
  VERIFY_LFS (w_lift call_format) false (
  m' <~ w_lift load_mounted ;;
  VERIFY_LFS (if m' then w_lift call_mount else w_pure 0) false (
  w_give ;;~
  w_pure true))).

(** [bool Adafruit_LittleFS::format (void)]: it calls [xWrap_format]
    between a take and a give of its own.  The loop
    [while (pdTRUE != xSemaphoreTake(_mutex, portMAX_DELAY)) {}] ends at
    the one call that acquires the mutex. *)
Definition format : M (option bool) :=
  enter (
    w_take ;;~
    retval <~ xWrap_format ;;
    w_give ;;~
    w_pure retval).

(** *** File handle factory and stat *)

(** [File Adafruit_LittleFS::open (char const *filepath, uint8_t mode)] *)
Definition open (filepath : string) (mode : Z) : M File :=
  xSemaphoreTake ;;
  file <- pure (mkFile filepath mode) ;;
  xSemaphoreGive ;;
  pure file.

(** [bool Adafruit_LittleFS::exists (char const *filepath)] *)
Definition exists_ (filepath : string) : M bool :=
  xSemaphoreTake ;;
  err <- call_stat filepath ;;
  xSemaphoreGive ;;
  pure (Z.eqb err LFS_ERR_OK).

(** *** Removal *)

(** [bool Adafruit_LittleFS::remove (char const *filepath)] *)
Definition remove (filepath : string) : M bool :=
  xSemaphoreTake ;;
  err <- call_remove filepath ;;
  xSemaphoreGive ;;
  pure (Z.eqb err LFS_ERR_OK).

(** [bool Adafruit_LittleFS::rmdir (char const *filepath)] *)
Definition rmdir (filepath : string) : M bool :=
  xSemaphoreTake ;;
  err <- call_remove filepath ;;
  xSemaphoreGive ;;
  pure (Z.eqb err LFS_ERR_OK).

(** [bool Adafruit_LittleFS::rmdir_r (char const *filepath)] *)
Definition rmdir_r (filepath : string) : M bool :=
  xSemaphoreTake ;;
  err <- call_remove filepath ;;
  xSemaphoreGive ;;
  pure (Z.eqb err LFS_ERR_OK).

(** *** Directory path builder *)

(** The [while] loop of [mkdir]: its value is the local [ret] at loop exit.
    [slash] is the offset of the pointer of that name from [filepath]. *)
Equations? mkdir_loop (filepath : string) (slash : nat) : M bool
  by wf (String.length filepath - slash)%nat lt :=
  mkdir_loop filepath slash with Logic.inspect (strchr filepath slash) := {
    | exist _ None _ => pure true
    | exist _ (Some found) _ =>
        rc <- call_mkdir (memcpy_prefix filepath found) ;;
        if negb (Z.eqb rc LFS_ERR_OK) && negb (Z.eqb rc LFS_ERR_EXIST)
        then pure false
        else mkdir_loop filepath (S found) }.
Proof.
  apply strchr_bounds in e. lia.
Qed.

(** [bool Adafruit_LittleFS::mkdir (char const *filepath)] *)
Definition mkdir (filepath : string) : M bool :=
  let slash :=
    match filepath with
    | String c _ => if is_slash c then 1%nat else 0%nat
    | EmptyString => 0%nat
    end in
  xSemaphoreTake ;;
  ret <- mkdir_loop filepath slash ;;
  ret <- (if ret
          then
            rc <- call_mkdir filepath ;;
            if negb (Z.eqb rc LFS_ERR_OK) && negb (Z.eqb rc LFS_ERR_EXIST)
            then pure false
            else pure ret
          else pure ret) ;;
  xSemaphoreGive ;;
  pure ret.

(** *** The directory path builder, in the words of its description *)

Definition created (rc : Z) : bool :=
  Z.eqb rc LFS_ERR_OK || Z.eqb rc LFS_ERR_EXIST.

(** Offsets in the path of every ['/'] among the characters [s], which
    start at offset [off], from left to right. *)
Fixpoint slash_offsets (off : nat) (s : string) : list nat :=
  match s with
  | EmptyString => []
  | String c s' =>
      if is_slash c then off :: slash_offsets (S off) s'
      else slash_offsets (S off) s'
  end.

(** Length of the optional leading slash. *)
Definition leading_slash (filepath : string) : nat :=
  match filepath with
  | String c _ => if is_slash c then 1 else 0
  | EmptyString => 0
  end.

(** The candidate parent paths: one per ['/'] after the optional leading
    slash, each the prefix of [filepath] up to that separator. *)
Definition parent_paths (filepath : string) : list string :=
  let lead := leading_slash filepath in
  map (fun sep => substring 0 sep filepath)
      (slash_offsets lead (advance lead filepath)).

(** Single-level creates in order, stopping at the first that reports
    anything but success or already-exists. *)
Fixpoint create_each (paths : list string) : M bool :=
  match paths with
  | [] => pure true
  | p :: rest =>
      rc <- call_mkdir p ;;
      if created rc then create_each rest else pure false
  end.

(** The same creates, written on the engine primitive itself: the
    creates issued with the code [lfs_mkdir] reported for each, the engine
    context after the last of them, and whether all were accepted. *)
Record creates : Type := mkCreates {
  issued : list (string * Z);
  context : lfs_t;
  accepted : bool
}.

Fixpoint issue_creates (paths : list string) (l : lfs_t) : creates :=
  match paths with
  | [] => mkCreates [] l true
  | p :: rest =>
      let c := lfs_mkdir l p in
      if created (fst c)
      then
        let r := issue_creates rest (snd c) in
        mkCreates ((p, fst c) :: issued r) (context r) (accepted r)
      else mkCreates [(p, fst c)] (snd c) false
  end.

(** The parents, then the path itself, under one acquisition of the lock. *)
Definition mkdir_spec (filepath : string) : M bool :=
  xSemaphoreTake ;;
  ok <- create_each (parent_paths filepath ++ [filepath]) ;;
  xSemaphoreGive ;;
  pure ok.

(** The configuration [begin] mounts with: the one supplied if any, else
    the one stored. *)
Definition begin_cfg (cfg : option lfs_config) (s : Adafruit_LittleFS)
  : option lfs_config :=
  match cfg with
  | Some c => Some c
  | None => _lfs_cfg s
  end.

(** *** Observations on the actions of a run *)

Definition is_take (e : event) : bool :=
  match e with Take => true | _ => false end.
Definition is_give (e : event) : bool :=
  match e with Give => true | _ => false end.
Definition is_store_mounted (e : event) : bool :=
  match e with StoreMounted _ => true | _ => false end.

(** Number of acquisitions and of releases of [_mutex]. *)
Definition acquisitions (t : list event) : nat := List.length (filter is_take t).
Definition releases (t : list event) : nat := List.length (filter is_give t).

(** The engine calls among the actions, with their results. *)
Fixpoint engine_calls (t : list event) : list (lfs_call * Z) :=
  match t with
  | [] => []
  | Lfs c rc :: t' => (c, rc) :: engine_calls t'
  | _ :: t' => engine_calls t'
  end.

(** Number of calls of the engine mount primitive. *)
Definition mount_calls (t : list event) : nat :=
  List.length (filter (fun c => match fst c with c_mount _ => true | _ => false end)
                 (engine_calls t)).

Definition all_ok (calls : list (lfs_call * Z)) : bool :=
  forallb (fun c => Z.eqb (snd c) LFS_ERR_OK) calls.

(** The action of a single-level create on [fst c] that reported [snd c]. *)
Definition create_event (c : string * Z) : event :=
  Lfs (c_mkdir (fst c)) (snd c).

(** A run from [s] that never stores to [_mounted]. *)
Definition leaves_mounted {A : Type} (s : Adafruit_LittleFS) (r : run A) : Prop :=
  _mounted (post r) = _mounted s /\
  existsb is_store_mounted (events r) = false.

(** A sequence of steps cut after the first that reports a failure. *)
Fixpoint until_failure (steps : list (lfs_call * Z)) : list (lfs_call * Z) :=
  match steps with
  | [] => []
  | (c, rc) :: rest =>
      (c, rc) :: (if Z.eqb rc LFS_ERR_OK then until_failure rest else [])
  end.

(** The steps written in [xWrap_format], on [s], with the result each
    would report: unmount, format and remount from a mounted facade,
    format alone otherwise. *)
Definition format_steps (s : Adafruit_LittleFS) : list (lfs_call * Z) :=
  let cfg := _lfs_cfg s in
  if _mounted s then
    let u := lfs_unmount (_lfs s) in
    let f := lfs_format (snd u) cfg in
    let m := lfs_mount (snd f) cfg in
    [(c_unmount, fst u); (c_format cfg, fst f); (c_mount cfg, fst m)]
  else
    [(c_format cfg, fst (lfs_format (_lfs s) cfg))].

(** Modelled from the spec: whether the engine's internal context
    reflects a successful mount (lfs.c is not among the sources).  It does
    after a mount call that reported success, it no longer does after an
    unmount call, and no other primitive changes it. *)
Definition ctx_step (mounted_ctx : bool) (e : event) : bool :=
  match e with
  | Lfs (c_mount _) rc => Z.eqb rc LFS_ERR_OK
  | Lfs c_unmount _ => false
  | _ => mounted_ctx
  end.

Definition ctx_after (mounted_ctx : bool) (t : list event) : bool :=
  fold_left ctx_step t mounted_ctx.

(** The invariant of the facade: the flag says mounted exactly when the
    engine's context is. *)
Definition mount_invariant (s : Adafruit_LittleFS) (mounted_ctx : bool) : Prop :=
  _mounted s = mounted_ctx.

(** Modelled from the spec: the exclusive lock ([_mutex], a FreeRTOS mutex
    created by [xSemaphoreCreateMutexStatic]; FreeRTOS is not among the
    sources).  Acquisition blocks with no timeout, so a task that acquires
    the lock it holds waits for ever: [None].  Otherwise the result tells
    whether the lock is held after the actions [t]. *)
Fixpoint lock_run (held : bool) (t : list event) : option bool :=
  match t with
  | [] => Some held
  | Take :: t' => if held then None else lock_run true t'
  | Give :: t' => lock_run false t'
  | _ :: t' => lock_run held t'
  end.

(** Modelled from the spec: what single-level create does to the entries
    of the filesystem, for an engine whose context [l] has an entry at
    [p] when [entry l p]: creating an existing entry reports
    [LFS_ERR_EXIST] and changes nothing, an entry is there once its
    create reported success or already-exists, and a create removes no
    entry. *)
Record CreateLaws (entry : lfs_t -> string -> Prop) : Prop := {
  create_existing : forall l p,
    entry l p -> lfs_mkdir l p = (LFS_ERR_EXIST, l);
  create_reported : forall l p,
    created (fst (lfs_mkdir l p)) = true -> entry (snd (lfs_mkdir l p)) p;
  create_keeps : forall l p q,
    entry l q -> entry (snd (lfs_mkdir l p)) q
}.

End Facade.

Arguments mkRun {E A} _ _ _.
Arguments value {E A} _.
Arguments post {E A} _.
Arguments events {E A} _.

(** ** Further observations on a facade and its runs *)

Section FacadeObservations.

Context {E : Engine}.

(** [Adafruit_LittleFS(void)], which delegates to the constructor above
    with a null configuration. *)
Definition new_fs_default : Adafruit_LittleFS := new_fs None.

(** The facade [s] with its [_mounted] flag set to [b]. *)
Definition with_mounted (b : bool) (s : Adafruit_LittleFS) : Adafruit_LittleFS :=
  mkFS (_lfs s) (_lfs_cfg s) b.

(** Whether every engine call among the actions [t] comes after an
    acquisition of [_mutex] that no release has followed yet; [held] tells
    whether that is so when [t] starts. *)
Fixpoint calls_under_lock (held : bool) (t : list event) : bool :=
  match t with
  | [] => true
  | Take :: t' => calls_under_lock true t'
  | Give :: t' => calls_under_lock false t'
  | Lfs _ _ :: t' => held && calls_under_lock held t'
  | StoreMounted _ :: t' => calls_under_lock held t'
  end.

(** Whether every store to [_mounted] among the actions [t] is made
    outside such a region. *)
Fixpoint stores_outside_lock (held : bool) (t : list event) : bool :=
  match t with
  | [] => true
  | Take :: t' => stores_outside_lock true t'
  | Give :: t' => stores_outside_lock false t'
  | Lfs _ _ :: t' => stores_outside_lock held t'
  | StoreMounted _ :: t' => negb held && stores_outside_lock held t'
  end.

End FacadeObservations.

(** ** Debug labels *)

(** What [dbg_strerr_lfs] returns: the address of a string literal or of
    its function-static array [errcode]. *)
Inductive char_ptr : Type :=
| Literal (text : string)
| Errcode.

(** The text read through [p] when the static array holds [errcode]. *)
Definition deref (p : char_ptr) (errcode : string) : string :=
  match p with
  | Literal text => text
  | Errcode => errcode
  end.

(** [static char errcode[10]]. *)
Definition errcode_size : nat := 10.

Definition digit_char (d : N) : ascii := ascii_of_N (48 + d).

Lemma log2_div10 (n : N) :
  (n <? 10)%N = false ->
  (N.to_nat (N.log2 (n / 10)) < N.to_nat (N.log2 n))%nat.
Proof.
  intros Hn. apply N.ltb_ge in Hn.
  assert (Hq : (0 < n / 10)%N) by (apply N.div_str_pos; lia).
  assert (Hle : (2 * (n / 10) <= n)%N).
  { pose proof (N.Div0.mul_div_le n 10). lia. }
  apply N.log2_le_mono in Hle. rewrite (N.log2_double _ Hq) in Hle. lia.
Qed.

(** The decimal digits of [n], most significant first, by repeated
    division by ten. *)
Equations? utoa (n : N) : list ascii by wf (N.to_nat (N.log2 n)) lt :=
  utoa n with Logic.inspect (N.ltb n 10) := {
    | exist _ true _ => [digit_char n]
    | exist _ false _ => utoa (n / 10) ++ [digit_char (n mod 10)] }.
Proof.
  apply log2_div10. assumption.
Qed.

(** The text written by [sprintf(errcode, "%ld", err)], without its
    terminating NUL. *)
Definition sprintf_ld (err : Z) : string :=
  string_of_list_ascii
    (match err with
     | Zneg p => "-"%char :: utoa (Npos p)
     | _ => utoa (Z.to_N err)
     end).

(** What [sprintf(errcode, "%ld", err)] leaves in [errcode]: the text,
    when it fits the array together with its terminating NUL.  When it
    does not, the call writes past the end of the array and the behaviour
    of the program is undefined: [None]. *)
Definition sprintf_errcode (err : Z) : option string :=
  let text := sprintf_ld err in
  if (String.length text + 1 <=? errcode_size)%nat then Some text else None.

(** [const char* dbg_strerr_lfs (int32_t err)], over the contents of its
    static array: the pointer returned and the contents after the call,
    or [None] where the behaviour is undefined. *)
Definition dbg_strerr_lfs (err : Z) (errcode : string)
  : option (char_ptr * string) :=
  if Z.eqb err LFS_ERR_OK then Some (Literal "LFS_ERR_OK", errcode)
  else if Z.eqb err LFS_ERR_IO then Some (Literal "LFS_ERR_IO", errcode)
  else if Z.eqb err LFS_ERR_CORRUPT then Some (Literal "LFS_ERR_CORRUPT", errcode)
  else if Z.eqb err LFS_ERR_NOENT then Some (Literal "LFS_ERR_NOENT", errcode)
  else if Z.eqb err LFS_ERR_EXIST then Some (Literal "LFS_ERR_EXIST", errcode)
  else if Z.eqb err LFS_ERR_NOTDIR then Some (Literal "LFS_ERR_NOTDIR", errcode)
  else if Z.eqb err LFS_ERR_ISDIR then Some (Literal "LFS_ERR_ISDIR", errcode)
  else if Z.eqb err LFS_ERR_NOTEMPTY
       then Some (Literal "LFS_ERR_NOTEMPTY", errcode)
  else if Z.eqb err LFS_ERR_BADF then Some (Literal "LFS_ERR_BADF", errcode)
  else if Z.eqb err LFS_ERR_INVAL then Some (Literal "LFS_ERR_INVAL", errcode)
  else if Z.eqb err LFS_ERR_NOSPC then Some (Literal "LFS_ERR_NOSPC", errcode)
  else if Z.eqb err LFS_ERR_NOMEM then Some (Literal "LFS_ERR_NOMEM", errcode)
  else option_map (fun text => (Errcode, text)) (sprintf_errcode err).

(** The codes that have a [case] of their own in the [switch]. *)
Definition is_named (err : Z) : bool :=
  existsb (Z.eqb err)
    [LFS_ERR_OK; LFS_ERR_IO; LFS_ERR_CORRUPT; LFS_ERR_NOENT; LFS_ERR_EXIST;
     LFS_ERR_NOTDIR; LFS_ERR_ISDIR; LFS_ERR_NOTEMPTY; LFS_ERR_BADF;
     LFS_ERR_INVAL; LFS_ERR_NOSPC; LFS_ERR_NOMEM].

(** The label a caller reads right after the call. *)
Definition dbg_label (err : Z) (errcode : string) : option string :=
  option_map (fun r => deref (fst r) (snd r)) (dbg_strerr_lfs err errcode).

(** ** Two engines to run the facade on *)

(** Modelled from the spec: a test double of the storage engine whose
    context is the script of result codes its next calls will report, one
    per call whatever the primitive; once the script is used up every call
    reports success. *)
Module TestDouble.

Definition report (script : list Z) : Z * list Z :=
  match script with
  | [] => (LFS_ERR_OK, [])
  | rc :: script' => (rc, script')
  end.

Definition scripted : Engine := {|
  lfs_config := unit;
  lfs_t := list Z;
  lfs_clear := [];
  lfs_mount := fun l _ => report l;
  lfs_unmount := report;
  lfs_format := fun l _ => report l;
  lfs_stat := fun l _ => report l;
  lfs_mkdir := fun l _ => report l;
  lfs_remove := fun l _ => report l
|}.

(** The one configuration of the test double, and no configuration. *)
Definition config : option (@lfs_config scripted) := Some tt.
Definition no_config : option (@lfs_config scripted) := None.

(** A facade over the test double. *)
Definition facade (script : list Z) (cfg : option (@lfs_config scripted))
    (mounted : bool) : @Adafruit_LittleFS scripted :=
  @mkFS scripted script cfg mounted.

End TestDouble.

(** Modelled from the spec: an engine that keeps the set of entries of
    the filesystem.  A single-level create adds one entry, reports
    [LFS_ERR_EXIST] on an entry that is there and [LFS_ERR_NOENT] when the
    immediate parent is not there; stat and remove report [LFS_ERR_NOENT]
    on an entry that is not there; format empties the filesystem. *)
Module DirEngine.

Definition mem (p : string) (l : list string) : bool :=
  existsb (String.eqb p) l.

(** Offset of the last ['/'] of the characters of [s], which start at
    offset [off] of the path. *)
Fixpoint last_slash (s : string) (off : nat) : option nat :=
  match s with
  | EmptyString => None
  | String c s' =>
      match last_slash s' (S off) with
      | Some k => Some k
      | None => if is_slash c then Some off else None
      end
  end.

Definition parent_present (l : list string) (p : string) : bool :=
  match last_slash p 0 with
  | None | Some O => true
  | Some k => mem (substring 0 k p) l
  end.

Definition dir_mkdir (l : list string) (p : string) : Z * list string :=
  if mem p l then (LFS_ERR_EXIST, l)
  else if parent_present l p then (LFS_ERR_OK, p :: l)
  else (LFS_ERR_NOENT, l).

Definition dir_stat (l : list string) (p : string) : Z * list string :=
  if mem p l then (LFS_ERR_OK, l) else (LFS_ERR_NOENT, l).

Definition dir_remove (l : list string) (p : string) : Z * list string :=
  if mem p l
  then (LFS_ERR_OK, filter (fun q => negb (String.eqb p q)) l)
  else (LFS_ERR_NOENT, l).

Definition dirs : Engine := {|
  lfs_config := unit;
  lfs_t := list string;
  lfs_clear := [];
  lfs_mount := fun l _ => (LFS_ERR_OK, l);
  lfs_unmount := fun l => (LFS_ERR_OK, l);
  lfs_format := fun _ _ => (LFS_ERR_OK, []);
  lfs_stat := dir_stat;
  lfs_mkdir := dir_mkdir;
  lfs_remove := dir_remove
|}.

Definition facade (l : list string) (mounted : bool)
  : @Adafruit_LittleFS dirs :=
  @mkFS dirs l (Some tt) mounted.

End DirEngine.


(** * Properties *)

(** Unfold a member function down to the engine primitives. *)
Ltac run_facade :=
  unfold begin, end_, open, exists_, remove, rmdir,
    rmdir_r, call_mount, call_unmount, call_format, call_stat,
    call_remove, call_mkdir, engine, bind, pure, xSemaphoreTake,
    xSemaphoreGive, load_mounted, load_cfg, store_mounted, store_cfg;
  cbn.

(** Name the outcome of the engine call the run is waiting for. *)
Ltac engine_result :=
  match goal with
  | |- context [match ?call with pair _ _ => _ end] =>
      let rc := fresh "rc" in
      let l := fresh "l" in
      destruct call as [rc l];
      cbn
  end.

(** The runs of [xWrap_format] entered without the mutex: one per
    outcome of the steps it issues. *)
Ltac format_cases s :=
  let l := fresh "l" in
  let cfg := fresh "cfg" in
  let m := fresh "m" in
  destruct s as [l cfg m]; destruct m; cbn [_mounted _lfs _lfs_cfg];
  unfold format_steps, xWrap_format, VERIFY_LFS, w_bind, w_take, w_give,
    w_lift, w_pure;
  run_facade;
  repeat (engine_result;
          match goal with
          | |- context [Z.eqb ?rc 0] =>
              let H := fresh "Hrc" in destruct (Z.eqb rc 0) eqn:H; cbn
          end).

Section MountController.

Context {E : Engine}.

(** ** begin *)

(** C4: on a facade whose [_mounted] flag is set, [begin] returns true at
    once, whatever configuration it is given: it performs no action at all
    (no engine call, so the number of engine mount calls is zero) and
    leaves the facade as it was. *)
Theorem begin_mounted_noop (cfg : option lfs_config) (s : Adafruit_LittleFS) :
  _mounted s = true ->
  begin cfg s = mkRun true s [] /\ mount_calls (events (begin cfg s)) = 0%nat.
Proof.
  intros Hm. destruct s as [l stored m]; cbn in Hm; subst m.
  run_facade. split; reflexivity.
Qed.

(** C5: on an unmounted facade, a configuration given to [begin] replaces
    the stored one; with no configuration available [begin] returns false
    without any engine call; otherwise it issues exactly one engine mount
    call, under the lock, sets [_mounted] to whether that call reported
    success and returns that boolean. *)
Theorem begin_unmounted (cfg : option lfs_config) (s : Adafruit_LittleFS) :
  _mounted s = false ->
  let r := begin cfg s in
  let avail := begin_cfg cfg s in
  let m := lfs_mount (_lfs s) avail in
  _lfs_cfg (post r) = avail /\
  (avail = None -> value r = false /\ events r = [] /\ post r = s) /\
  (avail <> None ->
     events r = [Take; Lfs (c_mount avail) (fst m); Give;
                 StoreMounted (Z.eqb (fst m) LFS_ERR_OK)] /\
     mount_calls (events r) = 1%nat /\
     _mounted (post r) = Z.eqb (fst m) LFS_ERR_OK /\
     value r = Z.eqb (fst m) LFS_ERR_OK /\
     _lfs (post r) = snd m).
Proof.
  intros Hm. destruct s as [l stored mt]; cbn in Hm; subst mt.
  destruct cfg as [c|]; [|destruct stored as [c|]];
    cbn [begin_cfg _lfs_cfg _lfs]; run_facade; try engine_result;
    (split; [reflexivity|]); split; intros H;
    try discriminate; try congruence; repeat split; reflexivity.
Qed.

(** ** end *)

(** C6: [end] on an unmounted facade performs no action and changes
    nothing; on a mounted facade it clears [_mounted] first, then calls
    the engine unmount under the lock; the code that call reports reaches
    neither the (unit) return value nor the flag nor the stored
    configuration. *)
Theorem end_sequence (s : Adafruit_LittleFS) :
  (_mounted s = false -> end_ s = mkRun tt s []) /\
  (_mounted s = true ->
     let u := lfs_unmount (_lfs s) in
     end_ s = mkRun tt (mkFS (snd u) (_lfs_cfg s) false)
                [StoreMounted false; Take; Lfs c_unmount (fst u); Give]).
Proof.
  destruct s as [l stored m]; split; intros Hm; cbn in Hm; subst m;
    run_facade; try engine_result; reflexivity.
Qed.

(** ** format *)

(** A take by a task that does not hold the mutex returns with the mutex
    held, as the take of the member functions that take it once; by the
    task that holds it, it never returns. *)
Lemma take_free_or_held (s : Adafruit_LittleFS) :
  w_take false s = mkRun (Some (value (xSemaphoreTake s), true))
                     (post (xSemaphoreTake s)) (events (xSemaphoreTake s)) /\
  w_take true s = mkRun None s [Take] /\
  xWrap_format true s = mkRun None s [Take].
Proof. repeat split; reflexivity. Qed.

(** [format] takes the mutex, enters [xWrap_format] holding it, and
    waits for ever at the take [xWrap_format] starts with: the facade is
    as it was and the two takes are all it has done. *)
Lemma format_waits (s : Adafruit_LittleFS) :
  format s = mkRun None s [Take; Take].
Proof. reflexivity. Qed.

(** Entered by a task that does not hold the mutex, [xWrap_format] issues
    its steps up to the first that fails and returns whether all of them
    succeeded; it never stores to [_mounted]; and it gives the mutex back
    on the successful path only, each early return leaving it taken. *)
Lemma xWrap_format_from_free (s : Adafruit_LittleFS) :
  let r := xWrap_format false s in
  let ok := all_ok (engine_calls (events r)) in
  engine_calls (events r) = until_failure (format_steps s) /\
  value r = Some (ok, negb ok) /\
  _mounted (post r) = _mounted s.
Proof.
  format_cases s; unfold all_ok, LFS_ERR_OK; cbn;
    repeat match goal with
           | H : Z.eqb ?rc 0 = _ |- context [Z.eqb ?rc 0] => rewrite H
           end;
    cbn; repeat split; reflexivity.
Qed.

(** C2 (as the code has it): [format] acquires the lock and [xWrap_format]
    acquires it again before any release, so every run of [format] makes
    two calls to take the lock, the second while the lock is held: with an
    exclusive lock whose acquisition never times out the calling task
    waits there for ever.  [format] does not return and the lock is never
    released. *)
Theorem format_takes_lock_twice (s : Adafruit_LittleFS) :
  let r := format s in
  acquisitions (events r) = 2%nat /\
  (exists t, events r = Take :: Take :: t) /\
  lock_run false (events r) = None /\
  events r = [Take; Take] /\
  releases (events r) = 0%nat /\
  lock_run false (removelast (events r)) = Some true /\
  value r = None.
Proof.
  cbn zeta. rewrite format_waits. cbn.
  repeat split; try reflexivity. eexists; reflexivity.
Qed.

(** C3 (as the code has it): whatever the mount state and whatever the
    engine would report, [format] issues no engine call at all, neither
    unmount nor format nor mount, and never returns, true or false; the
    calls it issues are not the steps its code spells out, of which there
    is always at least one.  The facade is left as it was. *)
Theorem format_issues_no_step (s : Adafruit_LittleFS) :
  let r := format s in
  engine_calls (events r) = [] /\
  value r = None /\
  post r = s /\
  until_failure (format_steps s) <> [] /\
  engine_calls (events r) <> until_failure (format_steps s).
Proof.
  cbn zeta. rewrite format_waits. cbn.
  assert (Hsteps : until_failure (format_steps s) <> []).
  { unfold format_steps. destruct (_mounted s); cbn; discriminate. }
  repeat split; try reflexivity; try exact Hsteps.
  intros H. apply Hsteps. symmetry. exact H.
Qed.

(** ** remove, rmdir, rmdir_r *)

(** C9: [remove], [rmdir] and [rmdir_r] behave alike on every path and
    every facade: one call of the engine remove primitive on the path,
    under the lock, and the result is true exactly when the engine
    reported [LFS_ERR_OK]. *)
Theorem remove_rmdir_rmdir_r_alike (filepath : string) (s : Adafruit_LittleFS) :
  let e := lfs_remove (_lfs s) filepath in
  let r := mkRun (Z.eqb (fst e) LFS_ERR_OK)
                 (mkFS (snd e) (_lfs_cfg s) (_mounted s))
                 [Take; Lfs (c_remove filepath) (fst e); Give] in
  remove filepath s = r /\ rmdir filepath s = r /\ rmdir_r filepath s = r.
Proof.
  destruct s as [l cfg m]. run_facade. engine_result.
  repeat split; reflexivity.
Qed.

End MountController.

Section DirectoryPathBuilder.

Context {E : Engine}.

Lemma advance_empty (n : nat) : advance n EmptyString = EmptyString.
Proof. destruct n; reflexivity. Qed.

Lemma advance_advance (m n : nat) (s : string) :
  advance n (advance m s) = advance (m + n) s.
Proof.
  revert s; induction m as [|m IH]; intros s; cbn; [reflexivity|].
  destruct s as [|c s]; [apply advance_empty | apply IH].
Qed.

(** [strchr] finds the first of the slash offsets, and the rest of them
    are those past it. *)
Lemma slash_offsets_strchr (s : string) (off : nat) :
  match strchr_slash s with
  | None => slash_offsets off s = []
  | Some j =>
      slash_offsets off s
      = (off + j)%nat :: slash_offsets (S (off + j)) (advance (S j) s)
  end.
Proof.
  revert off; induction s as [|c s IH]; intros off; cbn; [reflexivity|].
  destruct (is_slash c).
  - rewrite Nat.add_0_r. reflexivity.
  - specialize (IH (S off)). destruct (strchr_slash s) as [j|]; cbn.
    + rewrite IH. rewrite Nat.add_succ_r. reflexivity.
    + exact IH.
Qed.

Lemma created_negb (rc : Z) :
  negb (Z.eqb rc LFS_ERR_OK) && negb (Z.eqb rc LFS_ERR_EXIST)
  = negb (created rc).
Proof. unfold created. rewrite negb_orb. reflexivity. Qed.

(** The loop of [mkdir] entered with [slash] creates the prefixes up to
    the slashes from that offset on. *)
Lemma mkdir_loop_creates (filepath : string) (slash : nat) (s : Adafruit_LittleFS) :
  mkdir_loop filepath slash s
  = create_each (map (fun sep => substring 0 sep filepath)
                   (slash_offsets slash (advance slash filepath))) s.
Proof.
  revert s. funelim (mkdir_loop filepath slash); intros s.
  - (* strchr found a slash *)
    pose proof e as Hfound. unfold strchr in Hfound.
    pose proof (slash_offsets_strchr (advance slash filepath) slash) as Hoff.
    destruct (strchr_slash (advance slash filepath)) as [j|]; [|discriminate].
    cbn in Hfound. injection Hfound as Hfound.
    rewrite <- Hfound in *.
    rewrite Hoff, advance_advance, Nat.add_succ_r. cbn [map create_each].
    unfold bind, call_mkdir, engine, memcpy_prefix.
    destruct (lfs_mkdir (_lfs s) (substring 0 (slash + j) filepath)) as [rc l].
    rewrite created_negb. destruct (created rc); cbn [negb].
    + rewrite H; [reflexivity | exact rc | exact s].
    + reflexivity.
  - (* strchr returned NULL *)
    pose proof e as Hnull. unfold strchr in Hnull.
    pose proof (slash_offsets_strchr (advance slash filepath) slash) as Hoff.
    destruct (strchr_slash (advance slash filepath)) as [j|]; [discriminate|].
    rewrite Hoff. reflexivity.
Qed.

Lemma create_each_app (a b : list string) (s : Adafruit_LittleFS) :
  create_each (a ++ b) s
  = bind (create_each a)
      (fun ok => if ok then create_each b else pure false) s.
Proof.
  revert s; induction a as [|p a IH]; intros s; cbn [app create_each].
  - unfold bind, pure. destruct (create_each b s); reflexivity.
  - unfold bind, call_mkdir, engine.
    destruct (lfs_mkdir (_lfs s) p) as [rc l]. destruct (created rc).
    + rewrite IH. unfold bind.
      destruct (create_each a _) as [ok s1 t1]. destruct ok.
      * destruct (create_each b s1); reflexivity.
      * reflexivity.
    + reflexivity.
Qed.

(** [mkdir] is the builder of the description: the parents, then the
    path, under one acquisition of the lock. *)
Lemma mkdir_refines (filepath : string) (s : Adafruit_LittleFS) :
  mkdir filepath s = mkdir_spec filepath s.
Proof.
  unfold mkdir, mkdir_spec, parent_paths.
  fold (leading_slash filepath).
  unfold bind, xSemaphoreTake.
  rewrite create_each_app, mkdir_loop_creates.
  unfold bind.
  destruct (create_each _ s) as [ok s1 t1]. destruct ok.
  - cbn [create_each]. unfold bind, call_mkdir, engine, pure, xSemaphoreGive.
    destruct (lfs_mkdir (_lfs s1) filepath) as [rc l].
    rewrite created_negb. destruct (created rc); cbn;
      rewrite <- ?app_assoc, ?app_nil_r; reflexivity.
  - unfold pure, xSemaphoreGive; cbn.
    rewrite <- ?app_assoc, ?app_nil_r; reflexivity.
Qed.

(** What a run of [create_each] does: the creates it issued are the
    first of [paths], each but the last was accepted, and it stops short
    only on a create that was not. *)
Lemma create_each_run (paths : list string) (s : Adafruit_LittleFS) :
  let r := create_each paths s in
  exists issued : list (string * Z),
    events r = map create_event issued /\
    map fst issued = firstn (List.length issued) paths /\
    forallb (fun c => created (snd c)) (removelast issued) = true /\
    value r = forallb (fun c => created (snd c)) issued /\
    (value r = true -> List.length issued = List.length paths) /\
    _mounted (post r) = _mounted s /\
    _lfs_cfg (post r) = _lfs_cfg s.
Proof.
  revert s; induction paths as [|p paths IH]; intros s; cbn zeta.
  - exists []. cbn. repeat split; reflexivity.
  - cbn [create_each]. unfold bind, call_mkdir, engine.
    destruct (lfs_mkdir (_lfs s) p) as [rc l].
    destruct (created rc) eqn:Hrc.
    + specialize (IH (mkFS l (_lfs_cfg s) (_mounted s))). cbn zeta in IH.
      destruct (create_each paths _) as [ok s1 t1].
      destruct IH as (issued & Hev & Hfst & Hinit & Hval & Hall & Hm & Hcfg).
      cbn in Hev, Hval, Hall, Hm, Hcfg. exists ((p, rc) :: issued).
      cbn [events value post map fst snd List.length firstn forallb app].
      rewrite Hev, Hrc, <- Hfst, <- Hval.
      repeat split; auto.
      destruct issued as [|c issued]; [reflexivity|].
      cbn [removelast forallb snd] in Hinit |- *.
      rewrite Hrc. exact Hinit.
    + exists [(p, rc)]. cbn. rewrite Hrc.
      repeat split; try reflexivity. discriminate.
Qed.

(** Creates are neither stores to [_mounted], nor mounts or unmounts,
    nor calls on the lock. *)
Lemma create_events_frame (issued : list (string * Z)) (ctx : bool)
    (t : list event) :
  existsb is_store_mounted (map create_event issued) = false /\
  ctx_after ctx (map create_event issued ++ t) = ctx_after ctx t /\
  acquisitions (map create_event issued ++ t) = acquisitions t /\
  lock_run ctx (map create_event issued ++ t) = lock_run ctx t.
Proof.
  unfold ctx_after, acquisitions.
  induction issued as [|c issued (IH1 & IH2 & IH3 & IH4)]; cbn; auto.
Qed.

(** The run of [mkdir]: the run of [create_each] on the parents and the
    path, between an acquisition and a release of the lock. *)
Lemma mkdir_run (filepath : string) (s : Adafruit_LittleFS) :
  let r := mkdir filepath s in
  let targets := (parent_paths filepath ++ [filepath])%list in
  exists issued : list (string * Z),
    events r = Take :: map create_event issued ++ [Give] /\
    map fst issued = firstn (List.length issued) targets /\
    forallb (fun c => created (snd c)) (removelast issued) = true /\
    value r = forallb (fun c => created (snd c)) issued /\
    (value r = true -> List.length issued = List.length targets) /\
    _mounted (post r) = _mounted s /\
    _lfs_cfg (post r) = _lfs_cfg s.
Proof.
  cbn zeta. rewrite mkdir_refines. unfold mkdir_spec, bind, xSemaphoreTake.
  pose proof (create_each_run (parent_paths filepath ++ [filepath]) s) as Hrun.
  cbn zeta in Hrun.
  destruct (create_each _ s) as [ok s1 t1].
  destruct Hrun as (issued & Hev & Hrest). cbn in Hev, Hrest.
  exists issued. unfold xSemaphoreGive, pure; cbn. rewrite Hev.
  split; [reflexivity | exact Hrest].
Qed.

(** [create_each] does what [issue_creates] says of the engine: it
    hands each path to [lfs_mkdir] on the context the create before it
    left, and reports the code the engine reported. *)
Lemma create_each_issues (paths : list string) (s : Adafruit_LittleFS) :
  let c := issue_creates paths (_lfs s) in
  create_each paths s
  = mkRun (accepted c) (mkFS (context c) (_lfs_cfg s) (_mounted s))
          (map create_event (issued c)).
Proof.
  revert s; induction paths as [|p paths IH]; intros [l cfg m]; cbn zeta.
  - reflexivity.
  - cbn [create_each issue_creates _lfs _lfs_cfg _mounted].
    unfold bind, call_mkdir, engine. cbn [_lfs _lfs_cfg _mounted].
    destruct (lfs_mkdir l p) as [rc l1]. cbn [fst snd].
    destruct (created rc); [|reflexivity].
    rewrite (IH (mkFS l1 cfg m)). reflexivity.
Qed.

(** C7: on every path and every facade, the run of [mkdir] is one
    acquisition of the lock, the creates of [issue_creates] on the parent
    paths and then the path itself, and one release: past the optional
    leading slash it hands to [lfs_mkdir], for every ['/'] from left to
    right, the prefix of the path up to that separator, then the path
    itself, each on the engine context the create before it left,
    accepting the codes [LFS_ERR_OK] and [LFS_ERR_EXIST] and stopping at
    the first other code; it returns true exactly when every create it
    issued reported one of these two codes, and leaves the engine context
    of the last create issued. *)
Theorem mkdir_algorithm (filepath : string) (s : Adafruit_LittleFS) :
  let r := mkdir filepath s in
  let targets := (parent_paths filepath ++ [filepath])%list in
  let c := issue_creates targets (_lfs s) in
  r = mkRun (accepted c) (mkFS (context c) (_lfs_cfg s) (_mounted s))
            (Take :: map create_event (issued c) ++ [Give]) /\
  map fst (issued c) = firstn (List.length (issued c)) targets /\
  forallb (fun i => created (snd i)) (removelast (issued c)) = true /\
  value r = forallb (fun i => created (snd i)) (issued c) /\
  (value r = true -> map fst (issued c) = targets) /\
  r = mkdir_spec filepath s.
Proof.
  cbn zeta.
  assert (Hrun : mkdir filepath s
                 = mkRun (accepted (issue_creates (parent_paths filepath ++ [filepath]) (_lfs s)))
                     (mkFS (context (issue_creates (parent_paths filepath ++ [filepath]) (_lfs s)))
                        (_lfs_cfg s) (_mounted s))
                     (Take :: map create_event
                        (issued (issue_creates (parent_paths filepath ++ [filepath]) (_lfs s)))
                      ++ [Give])).
  { rewrite mkdir_refines. unfold mkdir_spec, bind, xSemaphoreTake.
    rewrite create_each_issues. reflexivity. }
  pose proof (create_each_run (parent_paths filepath ++ [filepath]) s) as Hce.
  cbn zeta in Hce. rewrite create_each_issues in Hce. cbn [events value post] in Hce.
  destruct Hce as (issued0 & Hev & Hfst & Hinit & Hval & Hall & _).
  assert (Hsame : issued0
                  = issued (issue_creates (parent_paths filepath ++ [filepath]) (_lfs s))).
  { clear - Hev. revert issued0 Hev.
    generalize (issued (issue_creates (parent_paths filepath ++ [filepath]) (_lfs s))).
    intros l1; induction l1 as [|[p rc] l1 IH]; intros [|[q rc'] l2] H;
      cbn in H; try discriminate; [reflexivity|].
    injection H as -> -> H. f_equal. apply IH. exact H. }
  subst issued0. rewrite Hrun. cbn [value].
  split; [reflexivity|]. split; [exact Hfst|]. split; [exact Hinit|].
  split; [exact Hval|]. split.
  - intros H. rewrite Hfst, (Hall H). apply firstn_all.
  - rewrite <- Hrun. apply mkdir_refines.
Qed.

End DirectoryPathBuilder.

Section Idempotence.

Context {E : Engine}.
Variable entry : lfs_t -> string -> Prop.
Hypothesis laws : CreateLaws entry.

Lemma create_each_keeps (paths : list string) (s : Adafruit_LittleFS) (q : string) :
  entry (_lfs s) q -> entry (_lfs (post (create_each paths s))) q.
Proof.
  revert s; induction paths as [|p paths IH]; intros s Hq; [exact Hq|].
  cbn [create_each]. unfold bind, call_mkdir, engine.
  pose proof (create_keeps entry laws (_lfs s) p q Hq) as Hkept.
  destruct (lfs_mkdir (_lfs s) p) as [rc l]. cbn in Hkept.
  destruct (created rc); [|exact Hkept].
  specialize (IH (mkFS l (_lfs_cfg s) (_mounted s)) Hkept).
  destruct (create_each paths _) as [ok s1 t1]. exact IH.
Qed.

(** Once [create_each] has returned true every path it was given is an
    entry. *)
Lemma create_each_entries (paths : list string) (s : Adafruit_LittleFS) :
  value (create_each paths s) = true ->
  Forall (entry (_lfs (post (create_each paths s)))) paths.
Proof.
  revert s; induction paths as [|p paths IH]; intros s; [constructor|].
  cbn [create_each]. unfold bind, call_mkdir, engine.
  pose proof (create_reported entry laws (_lfs s) p) as Hnew.
  destruct (lfs_mkdir (_lfs s) p) as [rc l]. cbn in Hnew.
  destruct (created rc); [|discriminate].
  pose proof (create_each_keeps paths (mkFS l (_lfs_cfg s) (_mounted s)) p
                (Hnew eq_refl)) as Hkept.
  specialize (IH (mkFS l (_lfs_cfg s) (_mounted s))).
  destruct (create_each paths _) as [ok s1 t1]. cbn in *.
  intros Hok. constructor; auto.
Qed.

(** On paths that are all entries [create_each] only hears
    already-exists and changes nothing. *)
Lemma create_each_existing (paths : list string) (s : Adafruit_LittleFS) :
  Forall (entry (_lfs s)) paths ->
  create_each paths s
  = mkRun true s (map (fun p => Lfs (c_mkdir p) LFS_ERR_EXIST) paths).
Proof.
  induction 1 as [|p paths Hp _ IH]; [reflexivity|].
  cbn [create_each]. unfold bind, call_mkdir, engine.
  rewrite (create_existing entry laws _ _ Hp). cbn.
  destruct s as [l cfg m]; cbn in *. rewrite IH. reflexivity.
Qed.

Lemma mkdir_spec_creates (filepath : string) (s : Adafruit_LittleFS) :
  let r := create_each (parent_paths filepath ++ [filepath]) s in
  value (mkdir_spec filepath s) = value r /\
  post (mkdir_spec filepath s) = post r.
Proof.
  cbn zeta. unfold mkdir_spec, bind, xSemaphoreTake, xSemaphoreGive, pure.
  destruct (create_each _ s) as [ok s1 t1]. split; reflexivity.
Qed.

(** C8: over an engine whose single-level create follows [CreateLaws]
    (creating an existing entry reports already-exists and changes
    nothing), a [mkdir] that returned true can be repeated: the second
    call returns true too and leaves the facade, engine context included,
    exactly as the first call left it. *)
Theorem mkdir_idempotent (filepath : string) (s : Adafruit_LittleFS) :
  value (mkdir filepath s) = true ->
  let s1 := post (mkdir filepath s) in
  value (mkdir filepath s1) = true /\ post (mkdir filepath s1) = s1.
Proof.
  cbn zeta. rewrite !mkdir_refines.
  destruct (mkdir_spec_creates filepath s) as [-> ->].
  intros Hok. apply create_each_entries in Hok.
  destruct (mkdir_spec_creates filepath
              (post (create_each (parent_paths filepath ++ [filepath]) s)))
    as [-> ->].
  rewrite (create_each_existing _ _ Hok). split; reflexivity.
Qed.

End Idempotence.

Section Frame.

Context {E : Engine}.

(** C10: [format], [mkdir], [exists], [remove], [rmdir], [rmdir_r] and
    [open] never store to [_mounted]: on every run, successful or not,
    the flag after the call is the flag before it; for [format], where it
    stops. *)
Theorem mounted_flag_frame (filepath : string) (mode : Z) (s : Adafruit_LittleFS) :
  leaves_mounted s (format s) /\
  leaves_mounted s (mkdir filepath s) /\
  leaves_mounted s (exists_ filepath s) /\
  leaves_mounted s (remove filepath s) /\
  leaves_mounted s (rmdir filepath s) /\
  leaves_mounted s (rmdir_r filepath s) /\
  leaves_mounted s (open filepath mode s).
Proof.
  unfold leaves_mounted. split; [|split].
  - rewrite format_waits. split; reflexivity.
  - destruct (mkdir_run filepath s) as (issued & Hev & _ & _ & _ & _ & Hm & _).
    split; [exact Hm|]. rewrite Hev. cbn [existsb is_store_mounted orb].
    rewrite existsb_app.
    rewrite (proj1 (create_events_frame issued false [])). reflexivity.
  - destruct s as [l cfg m]. run_facade. repeat engine_result.
    repeat split; reflexivity.
Qed.

(** X4: the mount invariant is kept by every member function: by
    [format] too, which changes neither the flag nor the engine. *)
Lemma mount_invariant_kept (cfg : option lfs_config) (filepath : string)
    (mode : Z) (s : Adafruit_LittleFS) (ctx : bool) :
  mount_invariant s ctx ->
  let kept {A : Type} (r : run A) :=
    mount_invariant (post r) (ctx_after ctx (events r)) in
  kept (begin cfg s) /\ kept (end_ s) /\ kept (mkdir filepath s) /\
  kept (exists_ filepath s) /\ kept (remove filepath s) /\
  kept (rmdir filepath s) /\ kept (rmdir_r filepath s) /\
  kept (open filepath mode s) /\
  kept (format s).
Proof.
  unfold mount_invariant. intros <-. cbn zeta.
  split; [|split; [|split]].
  - destruct s as [l stored m]. destruct m; [run_facade; reflexivity|].
    destruct cfg as [c|]; [|destruct stored as [c|]];
      run_facade; try engine_result; reflexivity.
  - destruct s as [l stored m]. destruct m;
      run_facade; try engine_result; reflexivity.
  - destruct (mkdir_run filepath s) as (issued & Hev & _ & _ & _ & _ & Hm & _).
    rewrite Hm, Hev. change (ctx_after ?c (Take :: ?t)) with (ctx_after c t).
    rewrite (proj1 (proj2 (create_events_frame issued (_mounted s) [Give]))).
    reflexivity.
  - repeat split; try (destruct s as [l stored m]; run_facade;
                       repeat engine_result; reflexivity).
Qed.


(** Apart from [format], a member function that reaches the engine
    acquires the lock once and has released it when it returns. *)
Lemma lock_taken_once_elsewhere (filepath : string) (mode : Z)
    (s : Adafruit_LittleFS) :
  let once {A : Type} (r : run A) :=
    acquisitions (events r) = 1%nat /\
    lock_run false (events r) = Some false in
  once (mkdir filepath s) /\ once (exists_ filepath s) /\
  once (remove filepath s) /\ once (rmdir filepath s) /\
  once (rmdir_r filepath s) /\ once (open filepath mode s).
Proof.
  cbn zeta. split.
  - destruct (mkdir_run filepath s) as (issued & Hev & _).
    rewrite Hev. cbn [lock_run].
    change (acquisitions (Take :: ?t)) with (S (acquisitions t)).
    destruct (create_events_frame issued true [Give]) as (_ & _ & -> & ->).
    split; reflexivity.
  - destruct s as [l cfg m]. run_facade. repeat engine_result.
    repeat split; reflexivity.
Qed.

End Frame.

(** * Runs on the two engines *)

Section Runs.

Import TestDouble DirEngine.

(** The entry-keeping engine follows the laws of single-level create. *)
Lemma dirs_create_laws :
  @CreateLaws dirs (fun l p => mem p l = true).
Proof.
  split; cbn; unfold dir_mkdir.
  - intros l p Hp. rewrite Hp. reflexivity.
  - intros l p. destruct (mem p l) eqn:Hp; [intros _; exact Hp|].
    destruct (parent_present l p); cbn; [|discriminate].
    intros _. unfold mem; cbn. rewrite String.eqb_refl. reflexivity.
  - intros l p q Hq. destruct (mem p l); [exact Hq|].
    destruct (parent_present l p); [|exact Hq].
    unfold mem in *; cbn. rewrite Hq. apply orb_true_r.
Qed.

(** C4 at a mounted facade over the test double, given a configuration. *)
Lemma begin_mounted_noop_witness :
  let s := TestDouble.facade [] no_config true in
  _mounted s = true /\
  (begin config s = mkRun true s [] /\
   mount_calls (events (begin config s)) = 0%nat).
Proof.
  cbn zeta. split; [reflexivity|].
  apply (@begin_mounted_noop scripted). reflexivity.
Defined.

(** C5 at an unmounted facade with a stored configuration whose mount the
    engine refuses. *)
Lemma begin_unmounted_witness :
  let s := TestDouble.facade [LFS_ERR_CORRUPT] config false in
  _mounted s = false /\
  (let r := begin no_config s in
   let avail := begin_cfg no_config s in
   let m := @lfs_mount scripted (_lfs s) avail in
   _lfs_cfg (post r) = avail /\
   (avail = None -> value r = false /\ events r = [] /\ post r = s) /\
   (avail <> None ->
      events r = [Take; Lfs (c_mount avail) (fst m); Give;
                  StoreMounted (Z.eqb (fst m) LFS_ERR_OK)] /\
      mount_calls (events r) = 1%nat /\
      _mounted (post r) = Z.eqb (fst m) LFS_ERR_OK /\
      value r = Z.eqb (fst m) LFS_ERR_OK /\
      _lfs (post r) = snd m)).
Proof.
  cbn zeta. split; [reflexivity|].
  apply (@begin_unmounted scripted). reflexivity.
Defined.


(** C8 on an empty filesystem: the first [mkdir] creates three
    directories, the second hears already-exists three times. *)
Lemma mkdir_idempotent_witness :
  let s := DirEngine.facade [] true in
  value (mkdir "/a/b/c" s) = true /\
  (let s1 := post (mkdir "/a/b/c" s) in
   value (mkdir "/a/b/c" s1) = true /\ post (mkdir "/a/b/c" s1) = s1).
Proof.
  cbn zeta. split; [reflexivity|].
  apply (@mkdir_idempotent dirs _ dirs_create_laws). reflexivity.
Defined.

(** The scenario of the description: [mkdir "/a/b/c"] on an empty
    filesystem, then [exists] on each level. *)
Example mkdir_a_b_c :
  let r := mkdir "/a/b/c" (DirEngine.facade [] true) in
  events r = [Take; Lfs (c_mkdir "/a") LFS_ERR_OK;
              Lfs (c_mkdir "/a/b") LFS_ERR_OK;
              Lfs (c_mkdir "/a/b/c") LFS_ERR_OK; Give] /\
  value (exists_ "/a" (post r)) = true /\
  value (exists_ "/a/b" (post r)) = true /\
  value (exists_ "/a/b/c" (post r)) = true.
Proof. repeat split; reflexivity. Qed.

(** A facade constructed without a configuration cannot be mounted until
    [begin] is given one. *)
Example begin_needs_configuration :
  let fs := @new_fs scripted no_config in
  begin no_config fs = mkRun false fs [] /\
  value (begin config fs) = true /\
  _lfs_cfg (post (begin config fs)) = config.
Proof. repeat split; reflexivity. Qed.

(** A parent that cannot be created stops the builder. *)
Example mkdir_parent_refused :
  let r := mkdir "/a/b/c"
             (TestDouble.facade [LFS_ERR_EXIST; LFS_ERR_NOSPC] config true) in
  value r = false /\
  events r = [Take; Lfs (c_mkdir "/a") LFS_ERR_EXIST;
              Lfs (c_mkdir "/a/b") LFS_ERR_NOSPC; Give].
Proof. split; reflexivity. Qed.

(** [format] waits at its second take, whatever the engine would report;
    [xWrap_format] entered without the mutex runs its steps. *)
Example format_runs :
  let s := TestDouble.facade [0; LFS_ERR_IO] config true in
  format s = mkRun None s [Take; Take] /\
  events (xWrap_format false s)
  = [Take; Lfs c_unmount 0; Lfs (c_format config) LFS_ERR_IO] /\
  events (xWrap_format false (TestDouble.facade [] config true))
  = [Take; Lfs c_unmount 0; Lfs (c_format config) 0;
     Lfs (c_mount config) 0; Give].
Proof. repeat split; reflexivity. Qed.

End Runs.

(** * Further properties of the member functions *)

Section LockDiscipline.

Context {E : Engine}.

Lemma creates_under_lock (issued : list (string * Z)) (t : list event) :
  calls_under_lock true (map create_event issued ++ t) = calls_under_lock true t.
Proof.
  induction issued as [|c issued IH]; cbn; auto.
Qed.

(** X1: no member function calls the engine without holding the lock: in
    the actions of every run each engine call comes after an acquisition
    of [_mutex] that no release has followed. *)
Theorem engine_calls_under_lock (cfg : option lfs_config) (filepath : string)
    (mode : Z) (s : Adafruit_LittleFS) :
  calls_under_lock false (events (begin cfg s)) = true /\
  calls_under_lock false (events (end_ s)) = true /\
  calls_under_lock false (events (format s)) = true /\
  calls_under_lock false (events (mkdir filepath s)) = true /\
  calls_under_lock false (events (exists_ filepath s)) = true /\
  calls_under_lock false (events (remove filepath s)) = true /\
  calls_under_lock false (events (rmdir filepath s)) = true /\
  calls_under_lock false (events (rmdir_r filepath s)) = true /\
  calls_under_lock false (events (open filepath mode s)) = true.
Proof.
  split; [|split; [|split; [|split]]].
  - destruct s as [l stored m]. destruct m; [run_facade; reflexivity|].
    destruct cfg as [c|]; [|destruct stored as [c|]];
      run_facade; try engine_result; reflexivity.
  - destruct s as [l stored m]. destruct m;
      run_facade; try engine_result; reflexivity.
  - rewrite format_waits. reflexivity.
  - destruct (mkdir_run filepath s) as (issued & Hev & _).
    rewrite Hev. cbn [calls_under_lock]. rewrite creates_under_lock.
    reflexivity.
  - destruct s as [l stored m]. run_facade. repeat engine_result.
    repeat split; reflexivity.
Qed.

(** X3: [begin] and [end], the member functions that store to
    [_mounted], do so while not holding the lock: [begin] after it has
    released it, [end] before it acquires it. *)
Theorem mounted_stored_outside_lock (cfg : option lfs_config)
    (s : Adafruit_LittleFS) :
  stores_outside_lock false (events (begin cfg s)) = true /\
  stores_outside_lock false (events (end_ s)) = true /\
  (_mounted s = false -> begin_cfg cfg s <> None ->
   exists rc b, events (begin cfg s) = [Take; Lfs (c_mount (begin_cfg cfg s)) rc;
                                        Give; StoreMounted b]) /\
  (_mounted s = true ->
   exists rc, events (end_ s) = [StoreMounted false; Take; Lfs c_unmount rc; Give]).
Proof.
  destruct s as [l stored m]. destruct m; cbn [_mounted].
  - run_facade. engine_result. repeat split; try reflexivity.
    + intros H; discriminate H.
    + intros _. eexists; reflexivity.
  - destruct cfg as [c|]; [|destruct stored as [c|]];
      cbn [begin_cfg _lfs_cfg]; run_facade; try engine_result;
      repeat split; try reflexivity; try (intros H; discriminate H);
      intros _ H; try congruence; do 2 eexists; reflexivity.
Qed.

(** X2: every member function but [format] acquires the lock at most once,
    never while it holds it, and has released it when it returns. *)
Theorem lock_released_on_return (cfg : option lfs_config) (filepath : string)
    (mode : Z) (s : Adafruit_LittleFS) :
  let balanced {A : Type} (r : run A) :=
    (acquisitions (events r) <= 1)%nat /\
    lock_run false (events r) = Some false in
  balanced (begin cfg s) /\ balanced (end_ s) /\
  balanced (mkdir filepath s) /\ balanced (exists_ filepath s) /\
  balanced (remove filepath s) /\ balanced (rmdir filepath s) /\
  balanced (rmdir_r filepath s) /\ balanced (open filepath mode s).
Proof.
  cbn zeta. split; [|split; [|split]].
  - destruct s as [l stored m]. destruct m; [run_facade; cbn; auto|].
    destruct cfg as [c|]; [|destruct stored as [c|]];
      run_facade; try engine_result; cbn; auto.
  - destruct s as [l stored m]. destruct m;
      run_facade; try engine_result; cbn; auto.
  - destruct (mkdir_run filepath s) as (issued & Hev & _).
    rewrite Hev. cbn [lock_run].
    change (acquisitions (Take :: ?t)) with (S (acquisitions t)).
    destruct (create_events_frame issued true [Give]) as (_ & _ & -> & ->).
    split; [cbn; lia | reflexivity].
  - destruct s as [l stored m]. run_facade. repeat engine_result.
    cbn. repeat split; auto.
Qed.

End LockDiscipline.

Section MountStateAndConfiguration.

Context {E : Engine}.

Lemma create_each_with_mounted (b : bool) (paths : list string)
    (s : Adafruit_LittleFS) :
  create_each paths (with_mounted b s)
  = mkRun (value (create_each paths s))
          (with_mounted b (post (create_each paths s)))
          (events (create_each paths s)).
Proof.
  revert s; induction paths as [|p paths IH]; intros [l0 stored m];
    [reflexivity|].
  cbn [create_each]. unfold bind, call_mkdir, engine, with_mounted.
  cbn [_lfs _lfs_cfg _mounted].
  destruct (lfs_mkdir l0 p) as [rc l].
  destruct (created rc); [|reflexivity].
  specialize (IH (mkFS l stored m)). unfold with_mounted in IH.
  cbn [_lfs _lfs_cfg _mounted] in IH. rewrite IH.
  destruct (create_each paths (mkFS l stored m)) as [ok s1 t1]. reflexivity.
Qed.

(** X5: [mkdir], [exists], [remove], [rmdir], [rmdir_r] and [open] do not
    look at the mount state: on an unmounted facade they reach the engine
    with the same calls, return the same value and leave the same engine
    context as on a mounted one. *)
Theorem no_mount_guard (b : bool) (filepath : string) (mode : Z)
    (s : Adafruit_LittleFS) :
  let same {A : Type} (f : M A) :=
    f (with_mounted b s)
    = mkRun (value (f s)) (with_mounted b (post (f s))) (events (f s)) in
  same (mkdir filepath) /\ same (exists_ filepath) /\
  same (remove filepath) /\ same (rmdir filepath) /\
  same (rmdir_r filepath) /\ same (open filepath mode).
Proof.
  cbn zeta. split.
  - rewrite !mkdir_refines. unfold mkdir_spec, bind, xSemaphoreTake.
    rewrite create_each_with_mounted.
    destruct (create_each _ s) as [ok s1 t1]. reflexivity.
  - destruct s as [l stored m]. unfold with_mounted.
    run_facade. repeat engine_result. repeat split; reflexivity.
Qed.

(** X6: only [begin] writes the stored configuration: it stores the one it
    is given when the facade is not mounted, and drops it when the facade
    is mounted; no other member function changes [_lfs_cfg]. *)
Theorem configuration_frame (cfg : option lfs_config) (filepath : string)
    (mode : Z) (s : Adafruit_LittleFS) :
  _lfs_cfg (post (begin cfg s))
  = (if _mounted s then _lfs_cfg s else begin_cfg cfg s) /\
  _lfs_cfg (post (end_ s)) = _lfs_cfg s /\
  _lfs_cfg (post (format s)) = _lfs_cfg s /\
  _lfs_cfg (post (mkdir filepath s)) = _lfs_cfg s /\
  _lfs_cfg (post (exists_ filepath s)) = _lfs_cfg s /\
  _lfs_cfg (post (remove filepath s)) = _lfs_cfg s /\
  _lfs_cfg (post (rmdir filepath s)) = _lfs_cfg s /\
  _lfs_cfg (post (rmdir_r filepath s)) = _lfs_cfg s /\
  _lfs_cfg (post (open filepath mode s)) = _lfs_cfg s.
Proof.
  split; [|split; [|split; [|split]]].
  - destruct s as [l stored m]. destruct m; [run_facade; reflexivity|].
    destruct cfg as [c|]; [|destruct stored as [c|]];
      run_facade; try engine_result; reflexivity.
  - destruct s as [l stored m]. destruct m;
      run_facade; try engine_result; reflexivity.
  - rewrite format_waits. reflexivity.
  - destruct (mkdir_run filepath s) as (issued & _ & _ & _ & _ & _ & _ & Hcfg).
    exact Hcfg.
  - destruct s as [l stored m]. run_facade. repeat engine_result.
    repeat split; reflexivity.
Qed.

(** X8: [end] always leaves the facade unmounted, and a second [end] right
    after it does nothing. *)
Theorem end_twice (s : Adafruit_LittleFS) :
  _mounted (post (end_ s)) = false /\
  end_ (post (end_ s)) = mkRun tt (post (end_ s)) [].
Proof.
  destruct s as [l stored m]. destruct m;
    run_facade; try engine_result; split; reflexivity.
Qed.

(** X7: what [begin] returns is the [_mounted] flag it leaves, in every case;
    and once it has returned true, a further [begin], with any
    configuration, returns true without any action and keeps the
    configuration the facade was mounted with. *)
Theorem begin_returns_flag (cfg cfg' : option lfs_config) (s : Adafruit_LittleFS) :
  value (begin cfg s) = _mounted (post (begin cfg s)) /\
  (value (begin cfg s) = true ->
   begin cfg' (post (begin cfg s)) = mkRun true (post (begin cfg s)) []).
Proof.
  destruct s as [l stored m]. destruct m.
  - run_facade. split; reflexivity.
  - destruct cfg as [c|]; [|destruct stored as [c|]];
      run_facade; try engine_result;
      (split; [reflexivity|]); intros H; try discriminate H;
      cbn in H; rewrite H; reflexivity.
Qed.

(** X9: [end] then [begin] without a configuration remounts with the stored
    configuration: from a mounted facade the two issue one unmount and
    one mount on the context the unmount left, and the facade is mounted
    again exactly when that mount reports success. *)
Theorem end_then_begin (s : Adafruit_LittleFS) :
  _mounted s = true -> _lfs_cfg s <> None ->
  let u := lfs_unmount (_lfs s) in
  let m := lfs_mount (snd u) (_lfs_cfg s) in
  let r := begin None (post (end_ s)) in
  engine_calls (events (end_ s) ++ events r)
  = [(c_unmount, fst u); (c_mount (_lfs_cfg s), fst m)] /\
  value r = Z.eqb (fst m) LFS_ERR_OK /\
  post r = mkFS (snd m) (_lfs_cfg s) (Z.eqb (fst m) LFS_ERR_OK).
Proof.
  destruct s as [l stored mt]; cbn [_mounted _lfs _lfs_cfg].
  intros -> Hcfg. destruct stored as [c|]; [|congruence].
  run_facade. engine_result. run_facade. engine_result.
  repeat split; reflexivity.
Qed.

(** X11: [begin] never hands the engine a null configuration: no engine
    mount it issues carries the null pointer, and on an unmounted facade
    with no configuration stored it returns false, given none, without
    any action. *)
Theorem null_configuration (cfg : option lfs_config) (s : Adafruit_LittleFS) :
  (forall rc, ~ In (c_mount None, rc) (engine_calls (events (begin cfg s)))) /\
  (_mounted s = false -> _lfs_cfg s = None ->
   begin None s = mkRun false s []).
Proof.
  destruct s as [l stored m]. split.
  - intros rc. destruct m; [run_facade; intros []|].
    destruct cfg as [c|]; [|destruct stored as [c|]];
      run_facade; try engine_result; cbn; intros H;
      repeat (destruct H as [H|H]; try discriminate H); auto.
  - cbn [_mounted _lfs_cfg _lfs]. intros -> ->. run_facade. reflexivity.
Qed.

End MountStateAndConfiguration.

Section MkdirAncestors.

Context {E : Engine}.

Lemma get_advance (n i : nat) (s : string) :
  get i (advance n s) = get (n + i) s.
Proof.
  revert s; induction n as [|n IH]; intros s; cbn; [reflexivity|].
  destruct s as [|c s]; [destruct i; reflexivity | apply IH].
Qed.

Lemma length_substring (k : nat) (s : string) :
  (k <= String.length s)%nat -> String.length (substring 0 k s) = k.
Proof.
  revert s; induction k as [|k IH]; intros [|c s] H; cbn in *;
    try reflexivity; try lia.
  rewrite IH; [reflexivity | lia].
Qed.

Lemma prefix_substring (k : nat) (s : string) :
  prefix (substring 0 k s) s = true.
Proof.
  revert s; induction k as [|k IH]; intros [|c s]; cbn; try reflexivity.
  destruct (ascii_dec c c) as [_|Hne]; [apply IH | contradiction].
Qed.

Lemma prefix_refl (s : string) : prefix s s = true.
Proof.
  induction s as [|c s IH]; cbn; [reflexivity|].
  destruct (ascii_dec c c) as [_|Hne]; [exact IH | contradiction].
Qed.

Lemma is_slash_eq (c : ascii) : is_slash c = true <-> c = "/"%char.
Proof. unfold is_slash. apply Ascii.eqb_eq. Qed.

(** The offsets listed by [slash_offsets] are those of the slashes. *)
Lemma slash_offsets_in (s : string) (off k : nat) :
  In k (slash_offsets off s) <->
  (off <= k /\ get (k - off) s = Some "/"%char)%nat.
Proof.
  revert off; induction s as [|c s IH]; intros off; cbn [slash_offsets].
  - split; [intros [] | intros [_ H]; destruct (k - off)%nat; discriminate].
  - assert (Hrest : In k (slash_offsets (S off) s) <->
                    (off < k /\ get (k - off) (String c s) = Some "/"%char)%nat).
    { rewrite IH. split; intros [Hle Hget]; (split; [lia|]).
      - replace (k - off)%nat with (S (k - S off)) by lia. exact Hget.
      - replace (k - off)%nat with (S (k - S off)) in Hget by lia. exact Hget. }
    destruct (is_slash c) eqn:Hc.
    + apply is_slash_eq in Hc; subst c. cbn [In]. rewrite Hrest.
      split.
      * intros [<-|[Hlt Hget]]; [|split; [lia | exact Hget]].
        split; [lia|]. rewrite Nat.sub_diag. reflexivity.
      * intros [Hle Hget]. destruct (Nat.eq_dec off k) as [->|Hne]; [now left|].
        right. split; [lia | exact Hget].
    + rewrite Hrest. split; intros [Hle Hget]; (split; [|exact Hget]); [lia|].
      destruct (Nat.eq_dec off k) as [->|Hne]; [|lia].
      rewrite Nat.sub_diag in Hget. cbn in Hget. injection Hget as ->.
      discriminate Hc.
Qed.

Lemma slash_offsets_sorted (s : string) (off : nat) :
  StronglySorted lt (slash_offsets off s).
Proof.
  revert off; induction s as [|c s IH]; intros off; cbn; [constructor|].
  destruct (is_slash c); [|apply IH].
  constructor; [apply IH|].
  apply Forall_forall. intros k Hk. apply slash_offsets_in in Hk. lia.
Qed.

Lemma get_some_lt (s : string) (k : nat) (c : ascii) :
  get k s = Some c -> (k < String.length s)%nat.
Proof.
  revert k; induction s as [|a s IH]; intros [|k] H; cbn in *;
    try discriminate; try lia.
  apply IH in H. lia.
Qed.

Lemma leading_slash_le (filepath : string) :
  (leading_slash filepath <= String.length filepath)%nat.
Proof.
  destruct filepath as [|c s]; cbn; [lia|]. destruct (is_slash c); lia.
Qed.

(** The parent paths are the prefixes of the path that stop right before
    a ['/'] past the optional leading slash. *)
Lemma parent_paths_in (filepath p : string) :
  In p (parent_paths filepath) <->
  exists k, (leading_slash filepath <= k)%nat /\
            get k filepath = Some "/"%char /\ p = substring 0 k filepath.
Proof.
  unfold parent_paths. rewrite in_map_iff.
  split; intros (k & H1 & H2).
  - apply slash_offsets_in in H2. destruct H2 as [Hle Hget].
    rewrite get_advance in Hget.
    replace (leading_slash filepath + (k - leading_slash filepath))%nat
      with k in Hget by lia.
    exists k. auto.
  - destruct H2 as [Hget ->]. exists k. split; [reflexivity|].
    apply slash_offsets_in. split; [exact H1|].
    rewrite get_advance.
    replace (leading_slash filepath + (k - leading_slash filepath))%nat
      with k by lia.
    exact Hget.
Qed.

Lemma sorted_map_substring (filepath : string) (ks : list nat) :
  StronglySorted lt ks ->
  Forall (fun k => (k < String.length filepath)%nat) ks ->
  StronglySorted (fun p q => (String.length p < String.length q)%nat)
    (map (fun k => substring 0 k filepath) ks).
Proof.
  induction 1 as [|k ks Hs IH Hk]; intros Hall; cbn; constructor.
  - apply IH. inversion Hall; assumption.
  - inversion Hall as [|? ? Hlt Hrest]; subst.
    apply Forall_forall. intros p Hp. apply in_map_iff in Hp.
    destruct Hp as (j & <- & Hj).
    rewrite Forall_forall in Hk, Hrest.
    rewrite !length_substring; [apply Hk; exact Hj | | lia].
    specialize (Hrest j Hj). lia.
Qed.

Lemma sorted_snoc {A : Type} (R : A -> A -> Prop) (l : list A) (x : A) :
  StronglySorted R l -> Forall (fun y => R y x) l ->
  StronglySorted R (l ++ [x]).
Proof.
  induction 1 as [|a l Hs IH Ha]; intros Hall; cbn.
  - constructor; constructor.
  - inversion Hall; subst. constructor; [apply IH; assumption|].
    apply Forall_app. split; [exact Ha | constructor; [assumption|constructor]].
Qed.

Lemma in_firstn {A : Type} (n : nat) (l : list A) (x : A) :
  In x (firstn n l) -> In x l.
Proof.
  intros H. rewrite <- (firstn_skipn n l). apply in_or_app. now left.
Qed.

Lemma sorted_firstn {A : Type} (R : A -> A -> Prop) (n : nat) (l : list A) :
  StronglySorted R l -> StronglySorted R (firstn n l).
Proof.
  intros Hs; revert n; induction Hs as [|a l Hs IH Ha]; intros [|n]; cbn;
    try constructor; [apply IH|].
  apply Forall_forall. intros y Hy. rewrite Forall_forall in Ha.
  apply Ha. eapply in_firstn. exact Hy.
Qed.

(** The paths [mkdir] works through, shortest first. *)
Lemma targets_ordered (filepath : string) :
  StronglySorted (fun p q => (String.length p < String.length q)%nat)
    (parent_paths filepath ++ [filepath]).
Proof.
  assert (Hlt : Forall (fun k => (k < String.length filepath)%nat)
                  (slash_offsets (leading_slash filepath)
                     (advance (leading_slash filepath) filepath))).
  { apply Forall_forall. intros k Hk. apply slash_offsets_in in Hk.
    destruct Hk as [Hle Hget]. rewrite get_advance in Hget.
    apply get_some_lt in Hget. lia. }
  apply sorted_snoc.
  - apply sorted_map_substring; [apply slash_offsets_sorted | exact Hlt].
  - unfold parent_paths. apply Forall_forall. intros p Hp.
    apply in_map_iff in Hp. destruct Hp as (k & <- & Hk).
    rewrite Forall_forall in Hlt. specialize (Hlt k Hk).
    rewrite length_substring; lia.
Qed.

(** X12: every path [mkdir] hands to the engine is the path itself or a
    prefix of it that stops right before a ['/'] past the optional leading
    slash; the creates go from the shortest path to the longest, so that
    a parent always comes before its children; and a run that returns
    true has issued a create for the prefix before every such ['/'] and
    for the path itself. *)
Theorem mkdir_ancestors_first (filepath : string) (s : Adafruit_LittleFS) :
  let r := mkdir filepath s in
  exists issued : list (string * Z),
    events r = Take :: map create_event issued ++ [Give] /\
    StronglySorted (fun p q => (String.length p < String.length q)%nat)
      (map fst issued) /\
    Forall (fun p =>
              prefix p filepath = true /\
              (p = filepath \/
               ((leading_slash filepath <= String.length p)%nat /\
                get (String.length p) filepath = Some "/"%char)))
      (map fst issued) /\
    (value r = true ->
     In filepath (map fst issued) /\
     forall k, (leading_slash filepath <= k)%nat ->
               get k filepath = Some "/"%char ->
               In (substring 0 k filepath) (map fst issued)).
Proof.
  cbn zeta.
  destruct (mkdir_run filepath s)
    as (issued & Hev & Hfst & _ & _ & Hall & _).
  exists issued. split; [exact Hev|]. split; [|split].
  - rewrite Hfst. apply sorted_firstn, targets_ordered.
  - rewrite Hfst. apply Forall_forall. intros p Hp.
    apply in_firstn, in_app_or in Hp. destruct Hp as [Hp|[<-|[]]].
    + apply parent_paths_in in Hp. destruct Hp as (k & Hle & Hget & ->).
      pose proof (get_some_lt _ _ _ Hget) as Hlt.
      split; [apply prefix_substring|]. right.
      rewrite length_substring by lia. auto.
    + split; [apply prefix_refl | now left].
  - intros Hok. rewrite Hfst, (Hall Hok), firstn_all. split.
    + apply in_or_app. right. now left.
    + intros k Hle Hget. apply in_or_app. left.
      apply parent_paths_in. exists k. auto.
Qed.

(** X13: a path with no ['/'] past its optional leading slash, the empty path
    included, costs exactly one engine call: a single-level create on the
    path as given, whose acceptance is the result. *)
Theorem mkdir_single_level (filepath : string) (s : Adafruit_LittleFS) :
  strchr filepath (leading_slash filepath) = None ->
  let c := lfs_mkdir (_lfs s) filepath in
  mkdir filepath s
  = mkRun (created (fst c)) (mkFS (snd c) (_lfs_cfg s) (_mounted s))
          [Take; Lfs (c_mkdir filepath) (fst c); Give].
Proof.
  intros Hnone. cbn zeta. rewrite mkdir_refines.
  unfold mkdir_spec, parent_paths.
  unfold strchr in Hnone.
  pose proof (slash_offsets_strchr
                (advance (leading_slash filepath) filepath)
                (leading_slash filepath)) as Hoff.
  destruct (strchr_slash (advance (leading_slash filepath) filepath));
    [discriminate|].
  rewrite Hoff. cbn [map app create_each].
  unfold bind, call_mkdir, engine, xSemaphoreTake, xSemaphoreGive, pure.
  destruct (lfs_mkdir (_lfs s) filepath) as [rc l]. cbn.
  destruct (created rc); reflexivity.
Qed.

End MkdirAncestors.

Section MkdirGuarantee.

Context {E : Engine}.
Variable entry : lfs_t -> string -> Prop.
Hypothesis laws : CreateLaws entry.
Hypothesis stat_finds :
  forall l p, entry l p -> fst (lfs_stat l p) = LFS_ERR_OK.

(** X14: over an engine whose single-level create follows [CreateLaws] and
    whose stat reports success on an entry, a [mkdir] that returned true
    leaves an entry at the path and at every parent path, and [exists]
    called next on any of them returns true. *)
Theorem mkdir_then_exists (filepath : string) (s : Adafruit_LittleFS) :
  value (mkdir filepath s) = true ->
  let s1 := post (mkdir filepath s) in
  Forall (fun p => entry (_lfs s1) p /\ value (exists_ p s1) = true)
    (parent_paths filepath ++ [filepath]).
Proof.
  cbn zeta. rewrite !mkdir_refines.
  destruct (mkdir_spec_creates filepath s) as [-> ->].
  intros Hok. apply (create_each_entries entry laws) in Hok.
  apply Forall_forall. intros p Hp. rewrite Forall_forall in Hok.
  specialize (Hok p Hp). split; [exact Hok|].
  apply stat_finds in Hok.
  unfold exists_, bind, call_stat, engine, xSemaphoreTake, xSemaphoreGive, pure.
  destruct (lfs_stat _ p) as [rc l]. cbn in Hok |- *. subst rc. reflexivity.
Qed.

End MkdirGuarantee.

(** * Debug labels *)

Section DebugLabels.

Local Open Scope N_scope.

Lemma utoa_step (n : N) :
  utoa n = if n <? 10 then [digit_char n]
           else (utoa (n / 10) ++ [digit_char (n mod 10)])%list.
Proof.
  funelim (utoa n).
  - rewrite e. reflexivity.
  - rewrite e. reflexivity.
Qed.

Lemma utoa_length_pos (n : N) : (1 <= List.length (utoa n))%nat.
Proof.
  rewrite utoa_step. destruct (n <? 10); cbn; [lia|].
  rewrite length_app. cbn. lia.
Qed.

(** A number has at most [k + 1] decimal digits exactly when it is below
    [10 ^ (k + 1)]. *)
Lemma utoa_length_le (k : nat) (n : N) :
  (List.length (utoa n) <= S k)%nat <-> n < 10 ^ N.of_nat (S k).
Proof.
  revert n; induction k as [|k IH]; intros n; rewrite utoa_step;
    destruct (N.ltb_spec n 10) as [Hlt|Hge].
  - cbn. split; [intros _|]; lia.
  - rewrite length_app. pose proof (utoa_length_pos (n / 10)). cbn [List.length].
    change (10 ^ N.of_nat 1) with 10. split; intros; lia.
  - cbn [List.length]. split; [intros _|intros _; lia].
    assert (10 ^ 1 <= 10 ^ N.of_nat (S (S k))) by (apply N.pow_le_mono_r; lia).
    change (10 ^ 1) with 10 in *. lia.
  - rewrite length_app. cbn [List.length].
    replace (N.of_nat (S (S k))) with (N.succ (N.of_nat (S k))) by lia.
    rewrite N.pow_succ_r'.
    assert (Hdiv : n / 10 < 10 ^ N.of_nat (S k) <-> n < 10 * 10 ^ N.of_nat (S k)).
    { split; intros H.
      - pose proof (N.div_mod n 10 ltac:(lia)) as Hn.
        pose proof (N.mod_lt n 10 ltac:(lia)). lia.
      - apply N.Div0.div_lt_upper_bound. exact H. }
    rewrite <- Hdiv, <- IH. lia.
Qed.

Lemma digit_char_code (d : N) : d < 10 -> N_of_ascii (digit_char d) = 48 + d.
Proof.
  intros H. unfold digit_char. apply N_ascii_embedding. lia.
Qed.

Lemma utoa_head (n : N) :
  exists d rest, d < 10 /\ utoa n = digit_char d :: rest.
Proof.
  induction n as [n IH] using (well_founded_induction N.lt_wf_0).
  rewrite utoa_step. destruct (N.ltb_spec n 10) as [Hlt|Hge].
  - exists n, []. auto.
  - destruct (IH (n / 10)) as (d & rest & Hd & ->).
    + apply N.div_lt; lia.
    + exists d, (rest ++ [digit_char (n mod 10)])%list. auto.
Qed.

Lemma utoa_inj (n m : N) : utoa n = utoa m -> n = m.
Proof.
  revert m; induction n as [n IH] using (well_founded_induction N.lt_wf_0).
  intros m. rewrite (utoa_step n), (utoa_step m).
  destruct (N.ltb_spec n 10) as [Hn|Hn]; destruct (N.ltb_spec m 10) as [Hm|Hm].
  - intros H. injection H as H. apply (f_equal N_of_ascii) in H.
    rewrite !digit_char_code in H by assumption. lia.
  - intros H. pose proof (utoa_length_pos (m / 10)).
    apply (f_equal (@List.length ascii)) in H. rewrite length_app in H.
    cbn in H. lia.
  - intros H. pose proof (utoa_length_pos (n / 10)).
    apply (f_equal (@List.length ascii)) in H. rewrite length_app in H.
    cbn in H. lia.
  - intros H. apply app_inj_tail in H. destruct H as [Hq Hr].
    apply IH in Hq; [|apply N.div_lt; lia].
    apply (f_equal N_of_ascii) in Hr.
    rewrite !digit_char_code in Hr by (apply N.mod_lt; lia).
    pose proof (N.div_mod n 10 ltac:(lia)).
    pose proof (N.div_mod m 10 ltac:(lia)). lia.
Qed.

Local Close Scope N_scope.

Lemma length_string_of_list (l : list ascii) :
  String.length (string_of_list_ascii l) = List.length l.
Proof. induction l as [|c l IH]; cbn; congruence. Qed.

Lemma string_of_list_inj (l1 l2 : list ascii) :
  string_of_list_ascii l1 = string_of_list_ascii l2 -> l1 = l2.
Proof.
  intros H. apply (f_equal list_ascii_of_string) in H.
  rewrite !list_ascii_of_string_of_list_ascii in H. exact H.
Qed.

(** The text of a number starts with a minus sign or a digit. *)
Lemma sprintf_ld_head (err : Z) :
  exists c rest, sprintf_ld err = String c rest /\
                 (N_of_ascii c = 45 \/ 48 <= N_of_ascii c < 58)%N.
Proof.
  unfold sprintf_ld. destruct err as [|p|p].
  - destruct (utoa_head (Z.to_N 0)) as (d & rest & Hd & ->).
    cbn. do 2 eexists. split; [reflexivity|]. right.
    rewrite digit_char_code; lia.
  - destruct (utoa_head (Z.to_N (Zpos p))) as (d & rest & Hd & ->).
    cbn. do 2 eexists. split; [reflexivity|]. right.
    rewrite digit_char_code; lia.
  - cbn. do 2 eexists. split; [reflexivity|]. now left.
Qed.

Lemma sprintf_ld_inj (e1 e2 : Z) : sprintf_ld e1 = sprintf_ld e2 -> e1 = e2.
Proof.
  unfold sprintf_ld. intros H. apply string_of_list_inj in H.
  assert (Hminus : forall n rest, "-"%char :: rest <> utoa n).
  { intros n rest Heq. destruct (utoa_head n) as (d & rest' & Hd & Hn).
    rewrite Hn in Heq. injection Heq as Hc _.
    apply (f_equal N_of_ascii) in Hc. rewrite digit_char_code in Hc by exact Hd.
    change (N_of_ascii "-"%char) with 45%N in Hc. lia. }
  destruct e1 as [|p1|p1]; destruct e2 as [|p2|p2];
    try (exfalso; eapply Hminus; first [exact H | symmetry; exact H]);
    try (apply utoa_inj in H; cbn in H; congruence).
  injection H as H. apply utoa_inj in H. congruence.
Qed.

(** Case analysis on the [switch] of [dbg_strerr_lfs]. *)
Ltac switch_cases :=
  unfold dbg_label, dbg_strerr_lfs, sprintf_errcode;
  repeat match goal with
         | |- context [Z.eqb ?a ?b] => destruct (Z.eqb_spec a b)
         end;
  try match goal with
      | |- context [Nat.leb ?a ?b] =>
          let Hlen := fresh "Hlen" in destruct (Nat.leb_spec a b) as [Hlen|Hlen]
      end;
  cbn [fst snd deref option_map].

(** A code without a [case] of its own takes the default case. *)
Lemma dbg_default (err : Z) (buf : string) :
  is_named err = false ->
  dbg_strerr_lfs err buf
  = option_map (fun text => (Errcode, text)) (sprintf_errcode err).
Proof.
  unfold is_named, dbg_strerr_lfs. cbn [existsb]. intros H.
  repeat match goal with
         | |- context [Z.eqb err ?c] =>
             destruct (Z.eqb err c);
             [cbn in H; rewrite ?orb_true_r in H; discriminate H | cbn in H]
         end.
  reflexivity.
Qed.

Lemma dbg_errcode_text (err : Z) (buf b : string) :
  dbg_strerr_lfs err buf = Some (Errcode, b) -> b = sprintf_ld err.
Proof.
  switch_cases; intros Hd; try discriminate Hd. injection Hd as Hd. congruence.
Qed.

Lemma dbg_literal_keeps (err : Z) (buf b text : string) :
  dbg_strerr_lfs err buf = Some (Literal text, b) -> b = buf.
Proof.
  switch_cases; intros Hd; try discriminate Hd; injection Hd as Hd1 Hd2;
    congruence.
Qed.

(** The text of a code and its terminating NUL fit the ten characters of
    [errcode] exactly when the code lies strictly between [-10^8] and
    [10^9]. *)
Lemma sprintf_ld_fits (err : Z) :
  (String.length (sprintf_ld err) + 1 <= errcode_size)%nat <->
  (-100000000 < err < 1000000000)%Z.
Proof.
  unfold sprintf_ld, errcode_size. rewrite length_string_of_list.
  destruct err as [|p|p]; cbn [List.length].
  - destruct (utoa_length_le 8 (Z.to_N 0)) as [_ Hfits].
    change (10 ^ N.of_nat 9)%N with 1000000000%N in Hfits.
    split; intros _; [lia|]. specialize (Hfits ltac:(lia)). lia.
  - destruct (utoa_length_le 8 (Z.to_N (Zpos p))) as [Hlen Hfits].
    change (10 ^ N.of_nat 9)%N with 1000000000%N in Hlen, Hfits.
    split; intros H.
    + specialize (Hlen ltac:(lia)). lia.
    + specialize (Hfits ltac:(lia)). lia.
  - destruct (utoa_length_le 7 (Npos p)) as [Hlen Hfits].
    change (10 ^ N.of_nat 8)%N with 100000000%N in Hlen, Hfits.
    split; intros H.
    + specialize (Hlen ltac:(lia)). lia.
    + specialize (Hfits ltac:(lia)). lia.
Qed.

Lemma dbg_label_inj (e1 e2 : Z) (buf1 buf2 label : string) :
  dbg_label e1 buf1 = Some label -> dbg_label e2 buf2 = Some label ->
  e1 = e2.
Proof.
  unfold dbg_label. intros H1 H2.
  destruct (dbg_strerr_lfs e1 buf1) as [[p1 b1]|] eqn:Hd1; [|discriminate H1].
  destruct (dbg_strerr_lfs e2 buf2) as [[p2 b2]|] eqn:Hd2; [|discriminate H2].
  cbn in H1, H2. injection H1 as H1. injection H2 as H2. subst label.
  destruct p1 as [t1|]; destruct p2 as [t2|]; cbn in H2.
  - subst t2. revert Hd1 Hd2. switch_cases; intros Hd1 Hd2;
      try discriminate Hd1; try discriminate Hd2;
      injection Hd1 as Hd1 _; injection Hd2 as Hd2 _;
      try congruence.
  - apply dbg_errcode_text in Hd2. rewrite Hd2 in H2. exfalso.
    destruct (sprintf_ld_head e2) as (c & rest & Heq & Hc).
    rewrite Heq in H2. revert Hd1. switch_cases; intros Hd1;
      try discriminate Hd1; injection Hd1 as Hd1 _; rewrite <- Hd1 in H2;
      injection H2 as Hhd _; subst c;
      change (N_of_ascii "L"%char) with 76%N in Hc; lia.
  - apply dbg_errcode_text in Hd1. rewrite Hd1 in H2. exfalso.
    destruct (sprintf_ld_head e1) as (c & rest & Heq & Hc).
    rewrite Heq in H2. revert Hd2. switch_cases; intros Hd2;
      try discriminate Hd2; injection Hd2 as Hd2 _; rewrite <- Hd2 in H2;
      injection H2 as Hhd _; subst c;
      change (N_of_ascii "L"%char) with 76%N in Hc; lia.
  - apply dbg_errcode_text in Hd1, Hd2. rewrite Hd1, Hd2 in H2.
    apply sprintf_ld_inj. symmetry. exact H2.
Qed.

(** X15: two different result codes never get the same label, whatever
    the static array held, as long as their labels are defined (the
    codes are named, or their decimal text fits the array): the twelve
    names are distinct, the decimal text of a code without a name is none
    of them, and two such codes have different texts. *)
Theorem dbg_label_injective (e1 e2 : Z) (buf1 buf2 label1 label2 : string) :
  e1 <> e2 ->
  dbg_label e1 buf1 = Some label1 ->
  dbg_label e2 buf2 = Some label2 ->
  label1 <> label2.
Proof.
  intros Hne H1 H2 Heq. subst label2. apply Hne.
  exact (dbg_label_inj e1 e2 buf1 buf2 label1 H1 H2).
Qed.

(** X16: when [dbg_strerr_lfs] takes the default case, the text and its
    terminating NUL fit the ten characters of [errcode] exactly when the
    code lies strictly between [-10^8] and [10^9]: there the call returns
    the array holding that text; beyond, [sprintf] writes past the end of
    the array and the call has no defined result. *)
Theorem dbg_errcode_fits (err : Z) (buf : string) :
  is_named err = false ->
  ((String.length (sprintf_ld err) + 1 <= errcode_size)%nat <->
   (-100000000 < err < 1000000000)%Z) /\
  (dbg_strerr_lfs err buf <> None <-> (-100000000 < err < 1000000000)%Z) /\
  ((-100000000 < err < 1000000000)%Z ->
   dbg_strerr_lfs err buf = Some (Errcode, sprintf_ld err)).
Proof.
  intros Hdefault. rewrite (dbg_default err buf Hdefault).
  pose proof (sprintf_ld_fits err) as Hfits.
  unfold sprintf_errcode.
  destruct (Nat.leb_spec (String.length (sprintf_ld err) + 1) errcode_size)
    as [Hle|Hgt]; cbn [option_map].
  - pose proof (proj1 Hfits Hle) as Hin.
    split; [exact Hfits|]. split; [split|].
    + intros _. exact Hin.
    + intros _ H. discriminate H.
    + intros _. reflexivity.
  - assert (Hout : ~ (-100000000 < err < 1000000000)%Z).
    { intros Hin. apply Hfits in Hin. lia. }
    split; [exact Hfits|]. split; [split|]; intros H; contradiction.
Qed.

(** X17: the labels of the default case share the one static array:
    after a second call that takes the default case too, what is read
    through the pointer the first call returned is the text of the second
    code, which is not the text of the first unless the codes are equal.
    A label that is a string literal stays what it was.  Both calls are
    taken where their result is defined. *)
Theorem dbg_label_overwritten (e1 e2 : Z) (buf b1 b2 : string)
    (p1 p2 : char_ptr) :
  dbg_strerr_lfs e1 buf = Some (p1, b1) ->
  dbg_strerr_lfs e2 b1 = Some (p2, b2) ->
  (p1 = Errcode -> p2 = Errcode ->
     deref p1 b2 = sprintf_ld e2 /\
     (e1 <> e2 -> deref p1 b2 <> deref p1 b1)) /\
  (p1 = Errcode -> p2 <> Errcode -> deref p1 b2 = deref p1 b1) /\
  (p1 <> Errcode -> deref p1 b2 = deref p1 b1).
Proof.
  intros H1 H2. split; [|split].
  - intros -> ->. apply dbg_errcode_text in H1, H2. subst b1 b2. cbn.
    split; [reflexivity|]. intros Hne Heq. apply Hne.
    apply sprintf_ld_inj. symmetry. exact Heq.
  - intros -> Hp2. destruct p2 as [text|]; [|congruence].
    apply dbg_literal_keeps in H2. subst b2. reflexivity.
  - intros Hp1. destruct p1 as [text|]; [reflexivity | congruence].
Qed.

End DebugLabels.

(** * Further runs on the two engines *)

Section MoreRuns.

Import TestDouble DirEngine.

(** The mount invariant at a mounted facade whose engine accepts the
    mount, unmount and other calls. *)
Lemma mount_invariant_kept_witness :
  let s := TestDouble.facade [] TestDouble.config true in
  mount_invariant s true /\
  (let kept {A : Type} (r : run A) :=
     mount_invariant (post r) (ctx_after true (events r)) in
   kept (begin TestDouble.no_config s) /\ kept (end_ s) /\
   kept (mkdir "/a/b" s) /\
   kept (exists_ "/a/b" s) /\ kept (remove "/a/b" s) /\
   kept (rmdir "/a/b" s) /\ kept (rmdir_r "/a/b" s) /\
   kept (open "/a/b" 1 s) /\
   kept (format s)).
Proof.
  cbn zeta. split; [reflexivity|].
  apply (@mount_invariant_kept TestDouble.scripted). reflexivity.
Defined.

(** [end] then [begin] on a mounted facade whose engine accepts the
    unmount and refuses the mount. *)
Lemma end_then_begin_witness :
  let s := TestDouble.facade [LFS_ERR_OK; LFS_ERR_CORRUPT] config true in
  _mounted s = true /\ _lfs_cfg s <> None /\
  (let u := @lfs_unmount scripted (_lfs s) in
   let m := @lfs_mount scripted (snd u) (_lfs_cfg s) in
   let r := begin None (post (end_ s)) in
   engine_calls (events (end_ s) ++ events r)
   = [(c_unmount, fst u); (c_mount (_lfs_cfg s), fst m)] /\
   value r = Z.eqb (fst m) LFS_ERR_OK /\
   post r = mkFS (snd m) (_lfs_cfg s) (Z.eqb (fst m) LFS_ERR_OK)).
Proof.
  cbn zeta. split; [reflexivity|]. split; [discriminate|].
  apply (@end_then_begin scripted); [reflexivity | discriminate].
Defined.

(** [mkdir "/a"]: one create. *)
Lemma mkdir_single_level_witness :
  let s := TestDouble.facade [LFS_ERR_NOSPC] config true in
  strchr "/a" (leading_slash "/a") = None /\
  (let c := @lfs_mkdir scripted (_lfs s) "/a" in
   mkdir "/a" s
   = mkRun (created (fst c)) (mkFS (snd c) (_lfs_cfg s) (_mounted s))
           [Take; Lfs (c_mkdir "/a") (fst c); Give]).
Proof.
  cbn zeta. split; [reflexivity|].
  apply (@mkdir_single_level scripted). reflexivity.
Defined.

(** The entry-keeping engine reports success for the stat of an entry. *)
Lemma dirs_stat_finds (l : list string) (p : string) :
  mem p l = true -> fst (dir_stat l p) = LFS_ERR_OK.
Proof. intros H. unfold dir_stat. rewrite H. reflexivity. Qed.

(** [mkdir "/a/b/c"] on an empty filesystem, then [exists] on each
    level. *)
Lemma mkdir_then_exists_witness :
  let s := DirEngine.facade [] true in
  value (mkdir "/a/b/c" s) = true /\
  (let s1 := post (mkdir "/a/b/c" s) in
   Forall (fun p => mem p (_lfs s1) = true /\ value (exists_ p s1) = true)
     (parent_paths "/a/b/c" ++ ["/a/b/c"])).
Proof.
  cbn zeta. split; [reflexivity|].
  apply (@mkdir_then_exists dirs (fun l p => mem p l = true)
           dirs_create_laws dirs_stat_finds).
  reflexivity.
Defined.

(** Two codes without a name. *)
Lemma dbg_label_injective_witness :
  (-84 <> -85)%Z /\
  dbg_label (-84) "" = Some "-84" /\
  dbg_label (-85) "" = Some "-85" /\
  "-84" <> "-85".
Proof.
  split; [discriminate|]. split; [reflexivity|]. split; [reflexivity|].
  apply (dbg_label_injective (-84) (-85) "" ""); [discriminate | | ];
    reflexivity.
Defined.

(** Two codes without a name, one call after the other. *)
Lemma dbg_label_overwritten_witness :
  dbg_strerr_lfs (-84) "" = Some (Errcode, "-84") /\
  dbg_strerr_lfs (-85) "-84" = Some (Errcode, "-85") /\
  ((Errcode = Errcode -> Errcode = Errcode ->
      deref Errcode "-85" = sprintf_ld (-85) /\
      ((-84)%Z <> (-85)%Z -> deref Errcode "-85" <> deref Errcode "-84")) /\
   (Errcode = Errcode -> Errcode <> Errcode ->
      deref Errcode "-85" = deref Errcode "-84") /\
   (Errcode <> Errcode -> deref Errcode "-85" = deref Errcode "-84")).
Proof.
  split; [reflexivity|]. split; [reflexivity|].
  apply (dbg_label_overwritten (-84) (-85) "" "-84" "-85" Errcode Errcode);
    reflexivity.
Defined.

(** The smallest [int32_t]: eleven characters and the NUL. *)
Lemma dbg_errcode_fits_witness :
  is_named (-2147483648) = false /\
  (((String.length (sprintf_ld (-2147483648)) + 1 <= errcode_size)%nat <->
    (-100000000 < -2147483648 < 1000000000)%Z) /\
   (dbg_strerr_lfs (-2147483648) "" <> None <->
    (-100000000 < -2147483648 < 1000000000)%Z) /\
   ((-100000000 < -2147483648 < 1000000000)%Z ->
    dbg_strerr_lfs (-2147483648) ""
    = Some (Errcode, sprintf_ld (-2147483648)))).
Proof.
  split; [reflexivity|]. apply dbg_errcode_fits. reflexivity.
Defined.

(** The labels of the named codes, and of some codes without a name. *)
Example dbg_labels :
  map (fun err => dbg_label err "")
    [LFS_ERR_OK; LFS_ERR_IO; LFS_ERR_CORRUPT; LFS_ERR_NOENT; LFS_ERR_EXIST;
     LFS_ERR_NOTDIR; LFS_ERR_ISDIR; LFS_ERR_NOTEMPTY; LFS_ERR_BADF;
     LFS_ERR_INVAL; LFS_ERR_NOSPC; LFS_ERR_NOMEM; 1; -84; -99999999;
     999999999; -100000000; 1000000000; -2147483648; 2147483647]%Z
  = [Some "LFS_ERR_OK"; Some "LFS_ERR_IO"; Some "LFS_ERR_CORRUPT";
     Some "LFS_ERR_NOENT"; Some "LFS_ERR_EXIST"; Some "LFS_ERR_NOTDIR";
     Some "LFS_ERR_ISDIR"; Some "LFS_ERR_NOTEMPTY"; Some "LFS_ERR_BADF";
     Some "LFS_ERR_INVAL"; Some "LFS_ERR_NOSPC"; Some "LFS_ERR_NOMEM";
     Some "1"; Some "-84"; Some "-99999999"; Some "999999999";
     None; None; None; None].
Proof. reflexivity. Qed.

(** The paths [mkdir] creates for some shapes of path. *)
Example mkdir_targets :
  map (fun p => (parent_paths p ++ [p])%list)
    [""; "/"; "a"; "/a/"; "a//b"; "/a/b/c"]
  = [[""]; ["/"]; ["a"]; ["/a"; "/a/"]; ["a"; "a/"; "a//b"];
     ["/a"; "/a/b"; "/a/b/c"]].
Proof. reflexivity. Qed.

End MoreRuns.
